(** * Ebook Translator: extraction, batching and reinsertion engine

    A shallow embedding of [lib/element.py]: the element variants, the
    extraction walk, the single and the merging element handlers, the
    placeholder codec and the table layout, followed by the properties
    of the specification that concern them. *)

From Stdlib Require Import ZArith QArith Lia Bool Ascii String List.
From Stdlib Require Import DecimalString DecimalN.
From stdpp Require Import base option list strings gmap.

Local Open Scope string_scope.
Local Open Scope list_scope.
Local Open Scope Z_scope.

(** ** Python strings and lists

    A [string] stands for a Python [str]; every [ascii] is one code point
    below 256. *)

Definition py_len (s : string) : Z := Z.of_nat (String.length s).

(** [str.isspace] on the code points below 256. *)
Definition py_isspace (c : ascii) : bool :=
  let n := nat_of_ascii c in
  ((9 <=? n)%nat && (n <=? 13)%nat) || ((28 <=? n)%nat && (n <=? 32)%nat)
  || (n =? 133)%nat || (n =? 160)%nat.

Fixpoint py_lstrip (s : string) : string :=
  match s with
  | String c s' => if py_isspace c then py_lstrip s' else s
  | EmptyString => EmptyString
  end.

Fixpoint py_rstrip (s : string) : string :=
  match s with
  | EmptyString => EmptyString
  | String c s' =>
      match py_rstrip s' with
      | EmptyString => if py_isspace c then EmptyString else String c EmptyString
      | r => String c r
      end
  end.

(** [s.strip()] *)
Definition py_strip (s : string) : string := py_rstrip (py_lstrip s).

(** The scan behind [s.split(sep)]: [skip] counts the characters of a
    separator that was just recognised and still has to be passed over,
    [cur] is the segment being read. *)
Fixpoint split_from (sep : string) (skip : nat) (cur : string) (s : string)
  : list string :=
  match s with
  | EmptyString => [cur]
  | String c s' =>
      match skip with
      | S k => split_from sep k cur s'
      | O =>
          if String.prefix sep s
          then cur :: split_from sep (String.length sep - 1) EmptyString s'
          else split_from sep 0 (cur +:+ String c EmptyString) s'
      end
  end.

(** [s.split(sep)]; [None] is the [ValueError] of an empty separator. *)
Definition py_split (sep s : string) : option (list string) :=
  if String.eqb sep "" then None else Some (split_from sep 0 "" s).

(** [sep.join(l)] *)
Fixpoint py_join (sep : string) (l : list string) : string :=
  match l with
  | [] => ""
  | [x] => x
  | x :: l' => x +:+ sep +:+ py_join sep l'
  end.

(** [s[-2:]] *)
Definition py_last2 (s : string) : string :=
  let n := String.length s in String.substring (n - 2) 2 s.

(** Python's index normalisation of a slice bound on a sequence of
    length [n]: negative bounds count from the end, and the result is
    clamped to [0..n]. *)
Definition slice_bound (n : nat) (k : Z) : nat :=
  let k' := if k <? 0 then k + Z.of_nat n else k in
  Z.to_nat (Z.min (Z.max 0 k') (Z.of_nat n)).

(** [l[:k]] and [l[k:]] *)
Definition py_slice_to {A} (l : list A) (k : Z) : list A :=
  take (slice_bound (length l) k) l.
Definition py_slice_from {A} (l : list A) (k : Z) : list A :=
  drop (slice_bound (length l) k) l.

(** [[x] * k] *)
Definition py_list_mul {A} (x : A) (k : Z) : list A := replicate (Z.to_nat k) x.

(** [c * k] for a one-character string [c] *)
Fixpoint string_repeat (c : ascii) (n : nat) : string :=
  match n with
  | O => ""
  | S n' => String c (string_repeat c n')
  end.
Definition py_str_mul (c : ascii) (k : Z) : string := string_repeat c (Z.to_nat k).

(** [l.insert(0, x)] and [l.append(x)] *)
Definition py_insert0 {A} (x : A) (l : list A) : list A := x :: l.
Definition py_append {A} (l : list A) (x : A) : list A := l ++ [x].

(** [s.replace(old, new)] for a one-character [old] *)
Fixpoint py_replace_char (old : ascii) (new : string) (s : string) : string :=
  match s with
  | EmptyString => EmptyString
  | String c s' =>
      if Ascii.eqb c old then new +:+ py_replace_char old new s'
      else String c (py_replace_char old new s')
  end.

(** [str(n)] and ['%s' % n] for an integer *)
Definition py_str_int (n : Z) : string := NilZero.string_of_int (Z.to_int n).

(** [format(n, '05')]: decimal, padded with zeros on the left to five
    characters (the sign, if any, stays in front). *)
Definition py_format05 (n : Z) : string :=
  let digits := NilZero.string_of_uint (N.to_uint (Z.abs_N n)) in
  let sign := if n <? 0 then "-" else "" in
  let width := (String.length sign + String.length digits)%nat in
  sign +:+ string_repeat "0" (5 - width) +:+ digits.

Definition starts_with (c : ascii) (s : string) : bool :=
  match s with
  | String d _ => Ascii.eqb d c
  | EmptyString => false
  end.

(** The characters a Rocq string literal cannot hold directly. *)
Definition nl : string := String (ascii_of_nat 10) "".
Definition dq : string := String (ascii_of_nat 34) "".
Definition nbsp : ascii := ascii_of_nat 160.

(** [x or ''] *)
Definition or_empty (o : option string) : string := default "" o.

(** [template.format(arg)] for a template whose only replacement field is
    the automatic one: [{{] and [}}] are literal braces, [{}] is replaced by
    [arg]; any other use of a brace is reported as a failure. *)
Fixpoint py_format1 (template arg : string) : option string :=
  match template with
  | EmptyString => Some EmptyString
  | String c t =>
      if Ascii.eqb c "{" || Ascii.eqb c "}" then
        match t with
        | String c' t' =>
            if Ascii.eqb c' c then String c <$> py_format1 t' arg
            else if Ascii.eqb c "{" && Ascii.eqb c' "}"
                 then String.append arg <$> py_format1 t' arg
                 else None
        | EmptyString => None
        end
      else String c <$> py_format1 t arg
  end.

(** The characters of a string, as [for c in s] yields them. *)
Fixpoint py_chars (s : string) : list string :=
  match s with
  | EmptyString => []
  | String c s' => String c "" :: py_chars s'
  end.

(** ** Document trees

    An lxml element: tag (local name, in the XHTML namespace), attributes in
    order, text, element children and tail.  [label] is the identity of the
    node for the Python objects that keep a reference to it; copies and
    freshly built nodes are anonymous. *)
#[warnings="-register-all"]
Inductive xml : Type :=
| Node (label : option nat) (tag : string) (attrib : list (string * string))
       (text : option string) (children : list xml) (tail : option string).

Definition x_label (n : xml) := let 'Node l _ _ _ _ _ := n in l.
Definition x_tag (n : xml) := let 'Node _ t _ _ _ _ := n in t.
Definition x_attrib (n : xml) := let 'Node _ _ a _ _ _ := n in a.
Definition x_text (n : xml) := let 'Node _ _ _ t _ _ := n in t.
Definition x_children (n : xml) := let 'Node _ _ _ _ c _ := n in c.
Definition x_tail (n : xml) := let 'Node _ _ _ _ _ t := n in t.

Definition set_text (t : option string) (n : xml) : xml :=
  let 'Node l tg a _ c tl := n in Node l tg a t c tl.
Definition set_tail (t : option string) (n : xml) : xml :=
  let 'Node l tg a tx c _ := n in Node l tg a tx c t.
Definition set_children (c : list xml) (n : xml) : xml :=
  let 'Node l tg a tx _ tl := n in Node l tg a tx c tl.

(** [element.set(name, value)] on the attribute list *)
Fixpoint attrib_set (name value : string) (a : list (string * string))
  : list (string * string) :=
  match a with
  | [] => [(name, value)]
  | (k, v) :: a' =>
      if String.eqb k name then (k, value) :: a'
      else (k, v) :: attrib_set name value a'
  end.
Definition xml_set (name value : string) (n : xml) : xml :=
  let 'Node l tg a tx c tl := n in Node l tg (attrib_set name value a) tx c tl.

(** [etree.SubElement(parent, tag, attrib)] and [parent.append(child)] *)
Definition xml_append (child : xml) (parent : xml) : xml :=
  set_children (x_children parent ++ [child]) parent.

(** [copy.deepcopy(element)]: the same tree, tail included, as new objects. *)
Fixpoint deepcopy (n : xml) : xml :=
  let 'Node _ tg a tx c tl := n in Node None tg a tx (List.map deepcopy c) tl.

(** The texts of a list of siblings, each followed by its tail. *)
Fixpoint children_text (f : xml -> string) (cs : list xml) : string :=
  match cs with
  | [] => ""
  | ch :: cs' => f ch +:+ or_empty (x_tail ch) +:+ children_text f cs'
  end.

(** [''.join(element.itertext())]: the text of the element and, for every
    descendant, its text and its tail; the tail of the element itself is
    not part of it. *)
Fixpoint itertext (n : xml) : string :=
  let 'Node _ _ _ tx c _ := n in or_empty tx +:+ children_text itertext c.

Definition has_label (l : nat) (n : xml) : bool :=
  match x_label n with Some l' => Nat.eqb l l' | None => false end.

(** The scans of a list of siblings used below: the first result of [f];
    the insertion of [new] next to the sibling that [here] accepts, looking
    into the earlier siblings with [inside]; and the removal of the sibling
    that [here] accepts, looking into the earlier ones with [inside]. *)
Fixpoint first_some {A B} (f : A -> option B) (cs : list A) : option B :=
  match cs with
  | [] => None
  | ch :: cs' =>
      match f ch with
      | Some r => Some r
      | None => first_some f cs'
      end
  end.

Fixpoint insert_next {A} (here : A -> bool) (inside : A -> A) (after : bool)
    (new : A) (cs : list A) : list A :=
  match cs with
  | [] => []
  | ch :: cs' =>
      if here ch
      then (if after then ch :: new :: cs' else new :: ch :: cs')
      else inside ch :: insert_next here inside after new cs'
  end.

Fixpoint remove_first {A} (here : A -> bool) (inside : A -> A * option A)
    (cs : list A) : list A * option A :=
  match cs with
  | [] => ([], None)
  | ch :: cs' =>
      if here ch then (cs', Some ch)
      else match inside ch with
           | (ch', Some r) => (ch' :: cs', Some r)
           | (ch', None) =>
               let '(cs'', r) := remove_first here inside cs' in (ch' :: cs'', r)
           end
  end.

(** The node a reference points to, searched in document order. *)
Fixpoint find_node (l : nat) (n : xml) : option xml :=
  if has_label l n then Some n
  else let 'Node _ _ _ _ c _ := n in first_some (find_node l) c.

(** In-place update of the node a reference points to. *)
Fixpoint update_node (l : nat) (f : xml -> xml) (n : xml) : xml :=
  if has_label l n then f n
  else let 'Node lb tg a tx c tl := n in
       Node lb tg a tx (List.map (update_node l f) c) tl.

(** [element.addnext(new)] ([after = true]) and [element.addprevious(new)]
    in the tree that holds [element] as a child: the new node becomes the
    sibling next to it (an element carries its tail with it). *)
Fixpoint insert_sibling (after : bool) (l : nat) (new : xml) (n : xml) : xml :=
  let 'Node lb tg a tx c tl := n in
  Node lb tg a tx
    (insert_next (has_label l) (insert_sibling after l new) after new c) tl.

(** [parent.remove(element)] in the tree that holds [element] as a child:
    the tree without it, and the removed node (with its tail). *)
Fixpoint detach (l : nat) (n : xml) : xml * option xml :=
  let 'Node lb tg a tx c tl := n in
  let '(c', r) := remove_first (has_label l) (detach l) c in
  (Node lb tg a tx c' tl, r).

(** The state of the trees: the document first, then the subtrees that
    were removed from it and are still referenced. *)
Definition doc := list xml.

Fixpoint doc_find (l : nat) (d : doc) : option xml :=
  match d with
  | [] => None
  | t :: d' =>
      match find_node l t with
      | Some r => Some r
      | None => doc_find l d'
      end
  end.

Definition doc_update (l : nat) (f : xml -> xml) (d : doc) : doc :=
  List.map (update_node l f) d.

Definition doc_insert_sibling (after : bool) (l : nat) (new : xml) (d : doc) : doc :=
  List.map (insert_sibling after l new) d.

(** [element.getparent().remove(element)]: [None] is the [AttributeError]
    raised when the element has no parent. *)
Fixpoint doc_detach (l : nat) (d : doc) : option doc :=
  match d with
  | [] => None
  | t :: d' =>
      match detach l t with
      | (t', Some r) => Some (t' :: d' ++ [r])
      | (_, None) => cons t <$> doc_detach l d'
      end
  end.

(** Computations that read and change the trees and may raise. *)
Definition M (A : Type) : Type := doc -> option (A * doc).

#[local] Instance M_ret : MRet M := fun A x d => Some (x, d).
#[local] Instance M_bind : MBind M :=
  fun A B f m d => match m d with Some (x, d') => f x d' | None => None end.
Definition raise {A} : M A := fun _ => None.
Definition lift {A} (o : option A) : M A :=
  fun d => match o with Some x => Some (x, d) | None => None end.
Definition modify (f : doc -> doc) : M unit := fun d => Some (tt, f d).
Definition read {A} (f : doc -> A) : M A := fun d => Some (f d, d).

(** ** What the module imports

    The helpers of [utils] and the library functions the module calls. *)
Class Lib := {
  (** [utils.trim] *)
  trim : string -> string;
  (** [utils.uid], the fingerprint of a string *)
  uid : string -> string;
  (** [utils.ns['x']], the XHTML namespace *)
  ns_x : string;
  (** [calibre.prepare_string_for_xml] *)
  xml_escape : string -> string;
  (** [etree.tostring(element, encoding='utf-8', with_tail=False)],
      decoded *)
  tostring : xml -> string;
  (** [etree.XML(markup)]; [None] is a syntax error *)
  etree_XML : string -> option xml;
  (** [json.dumps] of an attribute dictionary *)
  json_dumps : list (string * string) -> string;
  (** [re.sub(pattern, repl, s)] for a replacement string *)
  re_sub : string -> string -> string -> string;
  (** [re.sub(pattern, lambda _: repl, s)]: the replacement is inserted
      as it is *)
  re_sub_fn : string -> string -> string -> string;
}.

Definition in_tuple (x : string) (l : list string) : bool :=
  existsb (String.eqb x) l.

(** [str.strip('{}')] *)
Definition is_brace (c : ascii) : bool := Ascii.eqb c "{" || Ascii.eqb c "}".
Fixpoint lstrip_braces (s : string) : string :=
  match s with
  | String c s' => if is_brace c then lstrip_braces s' else s
  | EmptyString => EmptyString
  end.
Fixpoint rstrip_braces (s : string) : string :=
  match s with
  | EmptyString => EmptyString
  | String c s' =>
      match rstrip_braces s' with
      | EmptyString => if is_brace c then EmptyString else String c EmptyString
      | r => String c r
      end
  end.
Definition strip_braces (s : string) : string := rstrip_braces (lstrip_braces s).

(** ** Elements *)

(** The subclasses of [Element] with the object each one wraps. *)
Inductive ElementKind :=
| SrtElement (number time content : string)
| PgnElement (original : string) (slot : option string)
| MetadataElement (content : string)
| TocElement (title : string)
| PageElement (node : option nat).

Record Element := {
  element : ElementKind;
  page_id : option string;
  ignored : bool;
  placeholder : option (string * string);
  reserve_elements : list xml;
  column_gap : option (string * Z);
}.

Definition new_Element (k : ElementKind) (page_id : option string) : Element :=
  {| element := k; page_id := page_id; ignored := false; placeholder := None;
     reserve_elements := []; column_gap := None |}.

Definition set_element (k : ElementKind) (e : Element) : Element :=
  {| element := k; page_id := page_id e; ignored := ignored e;
     placeholder := placeholder e; reserve_elements := reserve_elements e;
     column_gap := column_gap e |}.
Definition set_ignored (b : bool) (e : Element) : Element :=
  {| element := element e; page_id := page_id e; ignored := b;
     placeholder := placeholder e; reserve_elements := reserve_elements e;
     column_gap := column_gap e |}.
Definition set_placeholder (p : string * string) (e : Element) : Element :=
  {| element := element e; page_id := page_id e; ignored := ignored e;
     placeholder := Some p; reserve_elements := reserve_elements e;
     column_gap := column_gap e |}.
Definition set_reserve_elements (r : list xml) (e : Element) : Element :=
  {| element := element e; page_id := page_id e; ignored := ignored e;
     placeholder := placeholder e; reserve_elements := r;
     column_gap := column_gap e |}.
Definition set_column_gap (g : string * Z) (e : Element) : Element :=
  {| element := element e; page_id := page_id e; ignored := ignored e;
     placeholder := placeholder e; reserve_elements := reserve_elements e;
     column_gap := Some g |}.

Definition noise_tags : list string := ["rt"; "rp"; "sup"; "sub"].
Definition reserve_tags : list string :=
  ["img"; "code"; "br"; "hr"; "sub"; "sup"; "kbd"].
Definition tag_in (tags : list string) (n : xml) : bool := in_tuple (x_tag n) tags.

(** The first loop of [PageElement.get_content] on the children of one
    node: a child with a noise tag hands its tail to the text [tx] of the
    parent and is removed; [inside] is the loop below a child that stays. *)
Fixpoint remove_noise_children (inside : xml -> xml) (tx : option string)
    (cs : list xml) : option string * list xml :=
  match cs with
  | [] => (tx, [])
  | ch :: cs' =>
      if tag_in noise_tags ch
      then remove_noise_children inside (Some (or_empty tx +:+ or_empty (x_tail ch))) cs'
      else let '(tx1, cs1) := remove_noise_children inside tx cs' in
           (tx1, inside ch :: cs1)
  end.

(** The first loop of [PageElement.get_content]: every descendant with a
    noise tag hands its tail to the text of its parent and is removed. *)
Fixpoint remove_noise (n : xml) : xml :=
  let 'Node lb tg a tx c tl := n in
  let '(tx', c') := remove_noise_children remove_noise tx c in
  Node lb tg a tx' c' tl.

(** The second loop of [PageElement.get_content] on the children [cs] of
    one node, from the counter [count].  [tx] is the text of the parent;
    [kept] holds the children that stay, last one first, so that its head
    is [reserve.getprevious()]; [enc] builds the placeholder of an index
    and [inside] is the loop below a child.  A reserved child leaves its
    placeholder and its tail on the previous sibling or on the parent, and
    is removed; what the loop makes of it afterwards, with its tail
    cleared, is its entry in [reserve_elements]. *)
Fixpoint reserve_children (inside : xml -> Z -> option (xml * list xml * Z))
    (enc : Z -> option string) (tx : option string) (kept : list xml)
    (cs : list xml) (count : Z)
  : option (option string * list xml * list xml * Z) :=
  match cs with
  | [] => Some (tx, kept, [], count)
  | ch :: cs' =>
      if tag_in reserve_tags ch then
        replacement ← enc count;
        let added := replacement +:+ or_empty (x_tail ch) in
        '(ch', inner, count1) ← inside ch (count + 1);
        '(tx2, kept2, rest, count2) ←
          match kept with
          | prev :: k =>
              reserve_children inside enc tx
                (set_tail (Some (or_empty (x_tail prev) +:+ added)) prev :: k)
                cs' count1
          | [] =>
              reserve_children inside enc (Some (or_empty tx +:+ added)) [] cs' count1
          end;
        Some (tx2, kept2, set_tail None ch' :: inner ++ rest, count2)
      else
        '(ch', inner, count1) ← inside ch count;
        '(tx2, kept2, rest, count2) ←
          reserve_children inside enc tx (ch' :: kept) cs' count1;
        Some (tx2, kept2, inner ++ rest, count2)
  end.

(** The second loop of [PageElement.get_content] below [n]: the tree that
    is left, the reserved elements in document order as the loop leaves
    them, and the counter. *)
Fixpoint reserve (enc : Z -> option string) (n : xml) (count : Z) {struct n}
  : option (xml * list xml * Z) :=
  let 'Node lb tg a tx c tl := n in
  '(tx', kept, rs, count') ← reserve_children (reserve enc) enc tx [] c count;
  Some (Node lb tg a tx' (rev kept) tl, rs, count').

(** [self.placeholder[0].format(format(count, '05'))] *)
Definition encode_placeholder (ph : option (string * string)) (count : Z)
  : option string :=
  p ← ph; py_format1 p.1 (py_format05 count).

(** [\w] of a Python 3 [str] pattern on the code points below 256:
    alphanumeric characters and the underscore. *)
Definition is_word (c : ascii) : bool :=
  let n := nat_of_ascii c in
  (((48 <=? n) && (n <=? 57)) || ((65 <=? n) && (n <=? 90)) || (n =? 95)
   || ((97 <=? n) && (n <=? 122)) || (n =? 170) || (n =? 178) || (n =? 179)
   || (n =? 181) || (n =? 185) || (n =? 186) || ((188 <=? n) && (n <=? 190))
   || ((192 <=? n) && (n <=? 214)) || ((216 <=? n) && (n <=? 246))
   || (248 <=? n))%nat.

(** [re.sub(r'((\w)\2{3})\2*', r'\1', s)], read from left to right.  Outside
    a match ([None]) a match starts at a word character followed by three
    copies of itself; inside a match on [d], [Some (d, k)] says that [k]
    characters of the group [\1] are still to be copied, and after them
    the further copies of [d] are dropped. *)
Fixpoint condense (st : option (ascii * nat)) (s : string) : string :=
  match s with
  | EmptyString => EmptyString
  | String c s' =>
      let start :=
        if is_word c && String.prefix (string_repeat c 3) s'
        then String c (condense (Some (c, 3%nat)) s')
        else String c (condense None s') in
      match st with
      | Some (d, S k) => String c (condense (Some (d, k)) s')
      | Some (d, O) => if Ascii.eqb c d then condense (Some (d, O)) s' else start
      | None => start
      end
  end.

Section WithLib.
Context `{Lib}.

(** [get_string(element, remove_ns)]: the markup and the element, whose
    text is no longer [None]. *)
Definition get_string (n : xml) (remove_ns : bool) : string * xml :=
  let n' := set_text (Some (or_empty (x_text n))) n in
  let markup := trim (tostring (set_tail None n')) in
  (if remove_ns
   then re_sub ("\sxmlns([^" +:+ dq +:+ "]+" +:+ dq +:+ "){2}") "" markup
   else markup, n').

(** [get_name(element)] *)
Definition get_name (n : xml) : string := x_tag n.

(** *** PageElement *)

(** [self.element], looked up in the trees. *)
Definition page_node (h : option nat) : M xml :=
  l ← lift h; n ← read (doc_find l); lift n.

Definition _element_copy (h : option nat) : M xml :=
  n ← page_node h; mret (deepcopy n).

Definition remove_from_parent (l : nat) : M unit :=
  fun d => match doc_detach l d with Some d' => Some (tt, d') | None => None end.

Definition page_delete (h : option nat) : M unit :=
  l ← lift h; remove_from_parent l.

Definition page_get_raw (h : option nat) : M string :=
  l ← lift h;
  n ← page_node h;
  let '(markup, n') := get_string n true in
  _ ← modify (doc_update l (fun _ => n'));
  mret markup.

Definition page_get_text (h : option nat) : M string :=
  n ← page_node h; mret (trim (itertext n)).

Definition page_get_attributes (h : option nat) : M (option string) :=
  n ← page_node h;
  mret (match x_attrib n with [] => None | a => Some (json_dumps a) end).

(** [PageElement.get_content]: the content and the new value of
    [self.reserve_elements]. *)
Definition page_get_content (e : Element) (h : option nat) : M (string * Element) :=
  element_copy ← _element_copy h;
  let element_copy := remove_noise element_copy in
  '(element_copy, reserved, _) ← lift (reserve (encode_placeholder (placeholder e)) element_copy 0);
  mret (trim (itertext element_copy), set_reserve_elements reserved e).

Definition _polish_translation (translation : string) : string :=
  let translation := py_replace_char (ascii_of_nat 10) "<br />" translation in
  condense None translation.

(** [round((100 - value) / 2)] for an integer [value]: the quotient is an
    integer or lies halfway between two, and a tie goes to the even one. *)
Definition round_half (n : Z) : Z :=
  let q := n / 2 in
  if n mod 2 =? 0 then q else if Z.even q then q else q + 1.

Definition _create_table (e : Element) (position : string) (original : xml)
    (translation : option xml) : xml :=
  let table := Node None "table" [("width", "100%")] None [] None in
  let tr := Node None "tr" [] None [] None in
  let td_left := Node None "td" [("valign", "top")] None [] None in
  let td_middle := Node None "td" [] None [] None in
  let td_right := Node None "td" [("valign", "top")] None [] None in
  let '(td_left, td_middle, td_right) :=
    match column_gap e with
    | None =>
        (xml_set "width" "45%" td_left, xml_set "width" "10%" td_middle,
         xml_set "width" "45%" td_right)
    | Some (unit, value) =>
        if String.eqb unit "percentage" then
          let width := py_str_int (round_half (100 - value)) +:+ "%" in
          (xml_set "width" width td_left,
           xml_set "width" (py_str_int value +:+ "%") td_middle,
           xml_set "width" width td_right)
        else
          (xml_set "width" "50%" td_left,
           set_text (Some (py_str_mul nbsp value)) td_middle,
           xml_set "width" "50%" td_right)
    end in
  let '(td_left, td_right) :=
    if String.eqb position "left" then
      (match translation with Some t => xml_append t td_left | None => td_left end,
       xml_append original td_right)
    else (td_left, td_right) in
  let '(td_left, td_right) :=
    if String.eqb position "right" then
      (xml_append original td_left,
       match translation with Some t => xml_append t td_right | None => td_right end)
    else (td_left, td_right) in
  xml_append (xml_append td_right (xml_append td_middle (xml_append td_left tr))) table.

(** The loop of [add_translation] over [enumerate(self.reserve_elements)]. *)
Fixpoint decode_placeholders (ph : option (string * string)) (rid : Z)
    (reserved : list xml) (translation : string) : option string :=
  match reserved with
  | [] => Some translation
  | r :: reserved' =>
      p ← ph;
      pattern ← py_format1 p.2 (py_join "\s*" (py_chars (py_format05 rid)));
      decode_placeholders ph (rid + 1) reserved'
        (re_sub_fn (xml_escape pattern) (get_string r false).1 translation)
  end.

(** The loop over [self.element.items()]. *)
Fixpoint copy_attributes (position : string) (items : list (string * string))
    (new_element : xml) : xml :=
  match items with
  | [] => new_element
  | (name, value) :: items' =>
      if String.eqb name "id" && negb (String.eqb position "only")
      then copy_attributes position items' new_element
      else
        let value := if String.eqb name "dir" then "auto" else value in
        copy_attributes position items' (xml_set name value new_element)
  end.

Definition when (b : bool) (m : M unit) : M unit := if b then m else mret tt.

Definition page_add_translation (e : Element) (h : option nat)
    (translation : option string) (position : string)
    (translation_lang original_color translation_color : option string) : M Element :=
  l ← lift h;
  _ ← match original_color with
      | Some c => modify (doc_update l (xml_set "style" ("color:" +:+ c)))
      | None => mret tt
      end;
  match translation with
  | None =>
      _ ← when (in_tuple position ["left"; "right"])
            (element_copy ← _element_copy h;
             modify (doc_insert_sibling true l (_create_table e position element_copy None)));
      _ ← when (in_tuple position ["left"; "right"]) (page_delete h);
      mret e
  | Some translation =>
      let translation := xml_escape translation in
      translation ← lift (decode_placeholders (placeholder e) 0 (reserve_elements e) translation);
      let translation := _polish_translation translation in
      n ← page_node h;
      new_element ← lift (etree_XML
        ("<" +:+ get_name n +:+ " xmlns=" +:+ dq +:+ ns_x +:+ dq +:+ ">"
         +:+ trim translation +:+ "</" +:+ get_name n +:+ ">"));
      let new_element := copy_attributes position (x_attrib n) new_element in
      let new_element :=
        match translation_lang with
        | Some lang => xml_set "lang" lang new_element
        | None => new_element
        end in
      let new_element :=
        match translation_color with
        | Some c => xml_set "style" ("color:" +:+ c) new_element
        | None => new_element
        end in
      _ ← modify (doc_update l (set_tail None));
      _ ← (if in_tuple position ["left"; "right"] then
             element_copy ← _element_copy h;
             modify (doc_insert_sibling true l
                       (_create_table e position element_copy (Some new_element)))
           else if String.eqb position "above" then
             modify (doc_insert_sibling false l new_element)
           else modify (doc_insert_sibling true l new_element));
      _ ← when (in_tuple position ["left"; "right"; "only"]) (page_delete h);
      mret e
  end.

(** *** The other variants *)

Definition srt_add_translation (number time content : string)
    (translation : option string) (position : string) : ElementKind :=
  match translation with
  | None => SrtElement number time content
  | Some translation =>
      if String.eqb position "only" then SrtElement number time translation
      else if in_tuple position ["below"; "right"]
      then SrtElement number time (content +:+ nl +:+ translation)
      else SrtElement number time (translation +:+ nl +:+ content)
  end.

Definition pgn_add_translation (original : string) (slot : option string)
    (translation : option string) (position : string) : ElementKind :=
  match translation with
  | None => PgnElement original slot
  | Some translation =>
      if String.eqb position "only" then PgnElement original (Some translation)
      else
        let content := [strip_braces original; translation] in
        let content :=
          if negb (in_tuple position ["below"; "right"]) then rev content
          else content in
        PgnElement original (Some (py_join " | " content))
  end.

Definition metadata_add_translation (content : string)
    (translation : option string) (position : string) : ElementKind :=
  match translation with
  | None => MetadataElement content
  | Some translation =>
      if String.eqb position "only" then MetadataElement translation
      else if in_tuple position ["above"; "left"]
      then MetadataElement (translation +:+ " " +:+ content)
      else MetadataElement (content +:+ " " +:+ translation)
  end.

Definition toc_add_translation (title : string)
    (translation : option string) (position : string) : ElementKind :=
  match translation with
  | None => TocElement title
  | Some translation =>
      let items := [title; translation] in
      TocElement
        (if String.eqb position "only" then translation
         else py_join " " (if in_tuple position ["above"; "left"]
                           then rev items else items))
  end.

(** *** The methods, by variant *)

Definition get_raw (e : Element) : M string :=
  match element e with
  | SrtElement _ _ content => mret content
  | PgnElement original _ => mret original
  | MetadataElement content => mret content
  | TocElement title => mret title
  | PageElement h => page_get_raw h
  end.

Definition get_text (e : Element) : M string :=
  match element e with
  | SrtElement _ _ content => mret content
  | PgnElement original _ => mret (strip_braces original)
  | MetadataElement content => mret content
  | TocElement title => mret title
  | PageElement h => page_get_text h
  end.

Definition get_content (e : Element) : M (string * Element) :=
  match element e with
  | SrtElement _ _ content => mret (content, e)
  | PgnElement original _ => mret (strip_braces original, e)
  | MetadataElement content => mret (content, e)
  | TocElement title => mret (title, e)
  | PageElement h => page_get_content e h
  end.

Definition get_attributes (e : Element) : M (option string) :=
  match element e with
  | PageElement h => page_get_attributes h
  | _ => mret None
  end.

Definition add_translation (e : Element) (translation : option string)
    (position : string)
    (translation_lang original_color translation_color : option string) : M Element :=
  match element e with
  | SrtElement number time content =>
      mret (set_element (srt_add_translation number time content translation position) e)
  | PgnElement original slot =>
      mret (set_element (pgn_add_translation original slot translation position) e)
  | MetadataElement content =>
      mret (set_element (metadata_add_translation content translation position) e)
  | TocElement title =>
      mret (set_element (toc_add_translation title translation position) e)
  | PageElement h =>
      page_add_translation e h translation position
        translation_lang original_color translation_color
  end.


(** ** Extraction *)

(** The part of an [Extraction] object that [extract_elements] reads: the
    compiled ignore rules, each one as the test it performs on an
    element. *)
Record Extraction := {
  element_patterns : list (xml -> bool);
}.

Definition need_ignore (ex : Extraction) (element : xml) : bool :=
  existsb (fun pattern => pattern element) (element_patterns ex).

Definition priority_elements : list string :=
  ["p"; "pre"; "h1"; "h2"; "h3"; "h4"; "h5"; "h6"].

(** [s is not None and trim(s) != ''] *)
Definition not_blank (s : option string) : bool :=
  match s with
  | Some t => negb (String.eqb (trim t) "")
  | None => false
  end.

(** The value of [element_has_content] at the end of the loop body. *)
Definition element_has_content (element : xml) : bool :=
  if not_blank (x_text element) then true
  else
    let children := x_children element in
    if negb (bool_decide (children = [])) && in_tuple (get_name element) priority_elements
    then true
    else existsb (fun child => not_blank (x_tail child)) children.

Definition new_PageElement (ex : Extraction) (page_id : string) (n : xml) : Element :=
  set_ignored (need_ignore ex n) (new_Element (PageElement (x_label n)) (Some page_id)).

(** [extract_elements(page_id, root, elements)]: the value returned, and
    the list object [elements] as the call leaves it. *)
Fixpoint extract_elements (ex : Extraction) (page_id : string) (root : xml)
    (elements : list Element) {struct root} : list Element * list Element :=
  let elements :=
    (fix loop (cs : list xml) (elements : list Element) {struct cs} : list Element :=
       match cs with
       | [] => elements
       | element :: cs' =>
           if element_has_content element
           then loop cs' (elements ++ [new_PageElement ex page_id element])
           else loop cs' (extract_elements ex page_id element elements).2
       end) (let 'Node _ _ _ _ c _ := root in c) elements in
  let page_element := new_PageElement ex page_id root in
  (match elements with [] => [page_element] | _ => elements end, elements).

(** ** Handlers *)

(** The tuples appended to [originals]: seven fields in the single-unit
    handler, five in the merging one. *)
Inductive Original :=
| Original7 (oid : Z) (md5 raw content : string) (ignored : bool)
            (attrs : option string) (page_id : option string)
| Original5 (oid : Z) (md5 raw txt : string) (ignored : bool).

(** The fields of a cache [Paragraph] that the handlers read and write. *)
Record Paragraph := {
  original : string;
  translation : option string;
}.

Inductive HandlerClass := ElementHandlerSingle | ElementHandlerMerge.

Record ElementHandler := {
  h_class : HandlerClass;
  h_placeholder : string * string;
  h_separator : string;
  h_position : string;
  h_merge_length : Z;
  h_translation_lang : option string;
  h_original_color : option string;
  h_translation_color : option string;
  h_column_gap : option (string * Z);
  (** a dictionary, in insertion order *)
  h_elements : list (Z * Element);
  h_originals : list Original;
}.

Definition new_ElementHandler (cls : HandlerClass) (placeholder : string * string)
    (separator position : string) (merge_length : Z) : ElementHandler :=
  {| h_class := cls; h_placeholder := placeholder; h_separator := separator;
     h_position := position; h_merge_length := merge_length;
     h_translation_lang := None; h_original_color := None;
     h_translation_color := None; h_column_gap := None;
     h_elements := []; h_originals := [] |}.

Definition with_elements (els : list (Z * Element)) (h : ElementHandler) :=
  {| h_class := h_class h; h_placeholder := h_placeholder h;
     h_separator := h_separator h; h_position := h_position h;
     h_merge_length := h_merge_length h;
     h_translation_lang := h_translation_lang h;
     h_original_color := h_original_color h;
     h_translation_color := h_translation_color h;
     h_column_gap := h_column_gap h;
     h_elements := els; h_originals := h_originals h |}.
Definition with_originals (os : list Original) (h : ElementHandler) :=
  {| h_class := h_class h; h_placeholder := h_placeholder h;
     h_separator := h_separator h; h_position := h_position h;
     h_merge_length := h_merge_length h;
     h_translation_lang := h_translation_lang h;
     h_original_color := h_original_color h;
     h_translation_color := h_translation_color h;
     h_column_gap := h_column_gap h;
     h_elements := h_elements h; h_originals := os |}.
Definition set_original_color (c : option string) (h : ElementHandler) :=
  {| h_class := h_class h; h_placeholder := h_placeholder h;
     h_separator := h_separator h; h_position := h_position h;
     h_merge_length := h_merge_length h;
     h_translation_lang := h_translation_lang h;
     h_original_color := c;
     h_translation_color := h_translation_color h;
     h_column_gap := h_column_gap h;
     h_elements := h_elements h; h_originals := h_originals h |}.
Definition handler_set_column_gap (g : string * Z) (h : ElementHandler) :=
  {| h_class := h_class h; h_placeholder := h_placeholder h;
     h_separator := h_separator h; h_position := h_position h;
     h_merge_length := h_merge_length h;
     h_translation_lang := h_translation_lang h;
     h_original_color := h_original_color h;
     h_translation_color := h_translation_color h;
     h_column_gap := Some g;
     h_elements := h_elements h; h_originals := h_originals h |}.

(** [d[k] = v] and [d.pop(k)] on a dictionary in insertion order *)
Fixpoint dict_set {A} (k : Z) (v : A) (d : list (Z * A)) : list (Z * A) :=
  match d with
  | [] => [(k, v)]
  | (k', v') :: d' =>
      if k' =? k then (k', v) :: d' else (k', v') :: dict_set k v d'
  end.
Fixpoint dict_pop {A} (k : Z) (d : list (Z * A)) : list (Z * A) :=
  match d with
  | [] => []
  | (k', v') :: d' => if k' =? k then d' else (k', v') :: dict_pop k d'
  end.

(** The two setter calls at the head of both [prepare_original] loops. *)
Definition configure (h : ElementHandler) (element : Element) : Element :=
  let element := set_placeholder (h_placeholder h) element in
  match h_column_gap h with
  | Some g => set_column_gap g element
  | None => element
  end.

(** [ElementHandler.prepare_original]: the loop from the state
    [(count, self)] at index [oid]. *)
Fixpoint prepare_original_single_loop (oid count : Z) (h : ElementHandler)
    (elements : list Element) : M ElementHandler :=
  match elements with
  | [] => mret h
  | element :: elements' =>
      let element := configure h element in
      raw ← get_raw element;
      '(content, element) ← get_content element;
      let md5 := uid (py_str_int oid +:+ content) in
      attrs ← get_attributes element;
      let '(h, count) :=
        if negb (ignored element)
        then (with_elements (dict_set count element (h_elements h)) h, count + 1)
        else (h, count) in
      let h := with_originals
                 (h_originals h ++
                  [Original7 oid md5 raw content (ignored element) attrs (page_id element)]) h in
      prepare_original_single_loop (oid + 1) count h elements'
  end.

Definition prepare_original_single (h : ElementHandler) (elements : list Element)
  : M ElementHandler :=
  prepare_original_single_loop 0 0 h elements.

(** [ElementHandler.prepare_translation]: [None] in the dictionary is a
    paragraph without translation. *)
Definition prepare_translation_single (paragraphs : list Paragraph)
  : gmap string (option string) :=
  foldl (fun translations paragraph =>
           <[original paragraph := translation paragraph]> translations)
        ∅ paragraphs.

(** [translations.get(original)] *)
Definition dict_get (translations : gmap string (option string)) (key : string)
  : option string :=
  mjoin (translations !! key).

(** *** The merging handler *)

(** The running batch of [ElementHandlerMerge.prepare_original]. *)
Record Batch := {
  b_raw : string;
  b_txt : string;
  b_oid : Z;
  b_originals : list Original;
}.

(** The body of the loop from [content += self.separator] on, for an
    element that is not ignored. *)
Definition merge_unit (separator : string) (merge_length : Z) (b : Batch)
    (code content : string) : Batch :=
  let content := content +:+ separator in
  if py_len (b_txt b +:+ content) <? merge_length then
    {| b_raw := b_raw b +:+ (code +:+ separator); b_txt := b_txt b +:+ content;
       b_oid := b_oid b; b_originals := b_originals b |}
  else
    let '(oid, originals) :=
      if negb (String.eqb (b_txt b) "") then
        let md5 := uid (py_str_int (b_oid b) +:+ b_txt b) in
        (b_oid b + 1,
         b_originals b ++ [Original5 (b_oid b) md5 (b_raw b) (b_txt b) false])
      else (b_oid b, b_originals b) in
    {| b_raw := code; b_txt := content; b_oid := oid; b_originals := originals |}.

(** The two statements after the loop. *)
Definition merge_flush (b : Batch) : list Original :=
  let md5 := uid (py_str_int (b_oid b) +:+ b_txt b) in
  if negb (String.eqb (b_txt b) "")
  then b_originals b ++ [Original5 (b_oid b) md5 (b_raw b) (b_txt b) false]
  else b_originals b.

(** [ElementHandlerMerge.prepare_original]: the loop at index [eid]; the
    field [b_originals] of the batch is [self.originals]. *)
Fixpoint prepare_original_merge_loop (eid : Z) (h : ElementHandler) (b : Batch)
    (elements : list Element) : M (ElementHandler * Batch) :=
  match elements with
  | [] => mret (h, b)
  | element :: elements' =>
      if ignored element then
        let h := with_elements (dict_set eid element (h_elements h)) h in
        prepare_original_merge_loop (eid + 1) h b elements'
      else
        let element := configure h element in
        code ← get_raw element;
        '(content, element) ← get_content element;
        let h := with_elements (dict_set eid element (h_elements h)) h in
        let b := merge_unit (h_separator h) (h_merge_length h) b code content in
        prepare_original_merge_loop (eid + 1) h b elements'
  end.

Definition prepare_original_merge (h : ElementHandler) (elements : list Element)
  : M ElementHandler :=
  let b := {| b_raw := ""; b_txt := ""; b_oid := 0; b_originals := h_originals h |} in
  '(h, b) ← prepare_original_merge_loop 0 h b elements;
  mret (with_originals (merge_flush b) h).

(** The first block of [align_paragraph]: the placeholder used as the
    separator.  [None] is a template that [format] rejects. *)
Definition normalize_separator (h : ElementHandler) (paragraph : Paragraph)
  : option Paragraph :=
  if negb (String.eqb (py_last2 (original paragraph)) (h_separator h)) then
    fmt ← py_format1 (h_placeholder h).2 "(0|[^0]\d*)";
    let pattern := "\s*" +:+ fmt +:+ "\s*" in
    Some {| original := re_sub pattern (h_separator h) (original paragraph);
            translation := re_sub pattern (h_separator h) <$> translation paragraph |}
  else Some paragraph.

(** [paragraph.original.strip().split(self.separator)] *)
Definition original_segments (h : ElementHandler) (paragraph : Paragraph)
  : option (list string) :=
  py_split (h_separator h) (py_strip (original paragraph)).

(** The segments of a translation, after the runs of separators are
    condensed. *)
Definition translation_segments (h : ElementHandler) (text : string)
  : option (list string) :=
  let pattern := h_separator h +:+ "+" in
  let translation := re_sub pattern (h_separator h) text in
  py_split (h_separator h) (py_strip translation).

(** The block of [align_paragraph] under [Ensure the translation count
    matches the actual elements count]. *)
Definition match_counts (position : string) (originals translations : list string)
  : list (option string) :=
  let offset := Z.of_nat (length originals) - Z.of_nat (length translations) in
  if 0 <? offset then
    if in_tuple position ["left"; "right"] then
      let addition := py_list_mul None offset in
      (Some <$> translations) ++ addition
    else
      let merged_translations := py_join (nl +:+ nl) translations in
      let translations : list (option string) :=
        py_list_mul None (Z.of_nat (length originals) - 1) in
      if in_tuple position ["above"]
      then py_insert0 (Some merged_translations) translations
      else py_append translations (Some merged_translations)
  else if offset <? 0 then
    let offset := Z.of_nat (length originals) - 1 in
    Some <$> (py_slice_to translations offset
              ++ [py_join (nl +:+ nl) (py_slice_from translations offset)])
  else Some <$> translations.

(** [ElementHandlerMerge.align_paragraph]: the pairs, and the paragraph
    as the call leaves it. *)
Definition align_paragraph (h : ElementHandler) (paragraph : Paragraph)
  : option (list (string * option string) * Paragraph) :=
  paragraph ← normalize_separator h paragraph;
  originals ← original_segments h paragraph;
  match translation paragraph with
  | None =>
      Some (zip originals (py_list_mul None (Z.of_nat (length originals))), paragraph)
  | Some text =>
      translations ← translation_segments h text;
      Some (zip originals (match_counts (h_position h) originals translations), paragraph)
  end.

(** [dict(pairs)]: a later pair replaces an earlier one with the same key. *)
Definition py_dict (pairs : list (string * option string))
  : gmap string (option string) :=
  foldl (fun d kv => <[kv.1 := kv.2]> d) ∅ pairs.

(** [ElementHandlerMerge.prepare_translation]: the pairs collected by the
    loop, and the paragraphs as it leaves them. *)
Fixpoint align_paragraphs (h : ElementHandler) (paragraphs : list Paragraph)
  : option (list (string * option string) * list Paragraph) :=
  match paragraphs with
  | [] => Some ([], [])
  | paragraph :: paragraphs' =>
      '(pairs, paragraph) ← align_paragraph h paragraph;
      '(pairs', paragraphs') ← align_paragraphs h paragraphs';
      Some (pairs ++ pairs', paragraph :: paragraphs')
  end.

Definition prepare_translation_merge (h : ElementHandler) (paragraphs : list Paragraph)
  : option (gmap string (option string) * list Paragraph) :=
  '(pairs, paragraphs) ← align_paragraphs h paragraphs;
  Some (py_dict pairs, paragraphs).

(** The methods that the subclass overrides. *)
Definition prepare_original (h : ElementHandler) (elements : list Element)
  : M ElementHandler :=
  match h_class h with
  | ElementHandlerSingle => prepare_original_single h elements
  | ElementHandlerMerge => prepare_original_merge h elements
  end.

Definition prepare_translation (h : ElementHandler) (paragraphs : list Paragraph)
  : option (gmap string (option string) * list Paragraph) :=
  match h_class h with
  | ElementHandlerSingle => Some (prepare_translation_single paragraphs, paragraphs)
  | ElementHandlerMerge => prepare_translation_merge h paragraphs
  end.

(** One call of [element.add_translation], as [add_translations] makes
    it: the unit it is made on and its arguments. *)
Record Call := {
  c_eid : Z;
  c_translation : option string;
  c_position : string;
  c_translation_lang : option string;
  c_original_color : option string;
  c_translation_color : option string;
}.

Definition perform (c : Call) (element : Element) : M Element :=
  add_translation element (c_translation c) (c_position c)
    (c_translation_lang c) (c_original_color c) (c_translation_color c).

(** The two forms of the call in [add_translations]: without a
    translation, and with one. *)
Definition absent_call (h : ElementHandler) (eid : Z) : Call :=
  {| c_eid := eid; c_translation := None; c_position := h_position h;
     c_translation_lang := None; c_original_color := h_original_color h;
     c_translation_color := None |}.
Definition present_call (h : ElementHandler) (eid : Z) (translation : string) : Call :=
  {| c_eid := eid; c_translation := Some translation;
     c_position := h_position h;
     c_translation_lang := h_translation_lang h;
     c_original_color := h_original_color h;
     c_translation_color := h_translation_color h |}.

(** [ElementHandler.add_translations]: the loop over the copy [items] of
    [self.elements].  Besides the handler, the calls of [add_translation]
    are returned, in the order in which they were made. *)
Fixpoint add_translations_loop (h : ElementHandler)
    (translations : gmap string (option string)) (items : list (Z * Element))
  : M (ElementHandler * list Call) :=
  match items with
  | [] => mret (h, [])
  | (eid, element) :: items' =>
      if ignored element then
        let call := absent_call h eid in
        element ← perform call element;
        let h := with_elements (dict_set eid element (h_elements h)) h in
        '(h, calls) ← add_translations_loop h translations items';
        mret (h, call :: calls)
      else
        '(original, element) ← get_content element;
        match dict_get translations original with
        | None =>
            let call := absent_call h eid in
            element ← perform call element;
            let h := with_elements (dict_set eid element (h_elements h)) h in
            '(h, calls) ← add_translations_loop h translations items';
            mret (h, call :: calls)
        | Some translation =>
            let call := present_call h eid translation in
            element ← perform call element;
            let h := with_elements (dict_pop eid (h_elements h)) h in
            '(h, calls) ← add_translations_loop h translations items';
            mret (h, call :: calls)
        end
  end.

Definition add_translations (h : ElementHandler) (paragraphs : list Paragraph)
  : M (ElementHandler * list Paragraph * list Call) :=
  '(translations, paragraphs) ← lift (prepare_translation h paragraphs);
  '(h, calls) ← add_translations_loop h translations (h_elements h);
  mret (h, paragraphs, calls).

End WithLib.

(** *** Places in a tree

    A tree with a hole among the children of one of its nodes; [plug] puts
    a list of siblings in the hole. *)
Inductive place :=
| Here (label : option nat) (tag : string) (attrib : list (string * string))
       (text : option string) (before after : list xml) (tail : option string)
| Below (label : option nat) (tag : string) (attrib : list (string * string))
        (text : option string) (before : list xml) (inner : place)
        (after : list xml) (tail : option string).

Fixpoint plug (c : place) (hole : list xml) : xml :=
  match c with
  | Here l tg a tx before after tl => Node l tg a tx (before ++ hole ++ after) tl
  | Below l tg a tx before inner after tl =>
      Node l tg a tx (before ++ plug inner hole :: after) tl
  end.

(** Whether a reference points into a tree, or into the trees around a
    hole. *)
Fixpoint mentions (l : nat) (n : xml) : bool :=
  has_label l n || (let 'Node _ _ _ _ c _ := n in existsb (mentions l) c).

Fixpoint place_mentions (l : nat) (c : place) : bool :=
  match c with
  | Here lb _ _ _ before after _ =>
      bool_decide (lb = Some l) || existsb (mentions l) before
      || existsb (mentions l) after
  | Below lb _ _ _ before inner after _ =>
      bool_decide (lb = Some l) || existsb (mentions l) before
      || place_mentions l inner || existsb (mentions l) after
  end.

(** ** Sample handlers and elements *)

Definition default_placeholder : string * string :=
  ("{{{{id_{}}}}}", "({{\s*)+id\s*_\s*{}\s*(\s*}})+").

(** A merging handler with a line break as separator. *)
Definition merge_handler (position : string) (merge_length : Z) : ElementHandler :=
  new_ElementHandler ElementHandlerMerge default_placeholder nl position merge_length.

Definition toc (title : string) : Element :=
  new_Element (TocElement title) (Some "toc.ncx").


Definition glued_elements : list Element := [toc "aaaa"; toc "b"; toc "c"].

(** A plain serialisation of a tree, for sample trees whose texts and
    attribute values hold no markup characters. *)
Fixpoint serialize (n : xml) : string :=
  let 'Node _ tg a tx c _ := n in
  "<" +:+ tg
  +:+ String.concat "" ((fun kv => " " +:+ kv.1 +:+ "=" +:+ dq +:+ kv.2 +:+ dq) <$> a)
  +:+ ">" +:+ or_empty tx
  +:+ (fix go (cs : list xml) : string :=
         match cs with
         | [] => ""
         | ch :: cs' => serialize ch +:+ or_empty (x_tail ch) +:+ go cs'
         end) c
  +:+ "</" +:+ tg +:+ ">".

Fixpoint escape_markup (s : string) : string :=
  match s with
  | EmptyString => EmptyString
  | String c s' =>
      (if Ascii.eqb c "&" then "&amp;"
       else if Ascii.eqb c "<" then "&lt;"
       else if Ascii.eqb c ">" then "&gt;"
       else String c "") +:+ escape_markup s'
  end.

(** *** A small regular-expression engine

    [re.sub] on the part of Python's pattern syntax that the patterns of
    the module need: literal characters, [.], the escapes for spaces,
    digits and word characters, character sets, groups, alternation and
    the quantifiers [*], [+], [?] and [{n}], matched by backtracking,
    greedy first. *)
Inductive set_item :=
| IChar (c : ascii)
| IRange (lo hi : ascii)
| ISpace | IDigit | IWord.

Inductive regex :=
| REmpty
| RChar (c : ascii)
| RAny
| RSpace | RDigit | RWord
| RSet (negated : bool) (items : list set_item)
| RSeq (r1 r2 : regex)
| RAlt (r1 r2 : regex)
| RStar (r : regex)
| RRepeat (n : nat) (r : regex).

Definition is_digit (c : ascii) : bool :=
  let n := nat_of_ascii c in ((48 <=? n) && (n <=? 57))%nat.

Definition in_item (c : ascii) (i : set_item) : bool :=
  match i with
  | IChar d => Ascii.eqb c d
  | IRange lo hi =>
      ((nat_of_ascii lo <=? nat_of_ascii c) && (nat_of_ascii c <=? nat_of_ascii hi))%nat
  | ISpace => py_isspace c
  | IDigit => is_digit c
  | IWord => is_word c
  end.

(** One character that [accept] takes. *)
Definition match_one (accept : ascii -> bool) (s : string)
    (k : string -> option string) : option string :=
  match s with
  | String c s' => if accept c then k s' else None
  | EmptyString => None
  end.

(** At most [n] further rounds of the match [m], as many as possible
    first; a round has to use up at least one character. *)
Fixpoint star_rounds (m : string -> (string -> option string) -> option string)
    (k : string -> option string) (n : nat) (s : string) : option string :=
  match n with
  | O => k s
  | S n' =>
      match m s (fun s' =>
              if (String.length s' <? String.length s)%nat
              then star_rounds m k n' s' else None) with
      | Some rest => Some rest
      | None => k s
      end
  end.

(** [n] rounds of the match [m]. *)
Fixpoint repeat_times (m : string -> (string -> option string) -> option string)
    (k : string -> option string) (n : nat) (s : string) : option string :=
  match n with
  | O => k s
  | S n' => m s (repeat_times m k n')
  end.

(** The match of [r] at the head of [s], handing what is left of [s] to
    the continuation [k]. *)
Fixpoint re_match (r : regex) (s : string) (k : string -> option string)
  : option string :=
  match r with
  | REmpty => k s
  | RChar d => match_one (Ascii.eqb d) s k
  | RAny => match_one (fun c => negb (Ascii.eqb c (ascii_of_nat 10))) s k
  | RSpace => match_one py_isspace s k
  | RDigit => match_one is_digit s k
  | RWord => match_one is_word s k
  | RSet negated items =>
      match_one (fun c => xorb negated (existsb (in_item c) items)) s k
  | RSeq r1 r2 => re_match r1 s (fun s' => re_match r2 s' k)
  | RAlt r1 r2 =>
      match re_match r1 s k with
      | Some rest => Some rest
      | None => re_match r2 s k
      end
  | RStar r1 => star_rounds (re_match r1) k (String.length s) s
  | RRepeat n r1 => repeat_times (re_match r1) k n s
  end.

(** The items of a character set up to the closing bracket. *)
Fixpoint parse_set (s : string) : option (list set_item * string) :=
  match s with
  | EmptyString => None
  | String c s' =>
      if Ascii.eqb c "]" then Some ([], s')
      else
        match s' with
        | EmptyString => None
        | String d s'' =>
            if Ascii.eqb c "\" then
              let item := if Ascii.eqb d "s" then ISpace
                          else if Ascii.eqb d "d" then IDigit
                          else if Ascii.eqb d "w" then IWord
                          else IChar d in
              '(items, rest) ← parse_set s''; Some (item :: items, rest)
            else if Ascii.eqb d "-" then
              match s'' with
              | EmptyString => None
              | String hi s3 =>
                  if Ascii.eqb hi "]" then
                    '(items, rest) ← parse_set s'; Some (IChar c :: items, rest)
                  else
                    '(items, rest) ← parse_set s3; Some (IRange c hi :: items, rest)
              end
            else '(items, rest) ← parse_set s'; Some (IChar c :: items, rest)
        end
  end.

(** A count in braces, as in [{2}]. *)
Fixpoint parse_count (acc : option nat) (s : string) : option (nat * string) :=
  match s with
  | String c s' =>
      if is_digit c
      then parse_count (Some (10 * default 0%nat acc + (nat_of_ascii c - 48))%nat) s'
      else if Ascii.eqb c "}" then n ← acc; Some (n, s') else None
  | EmptyString => None
  end.

(** The quantifiers that follow an atom. *)
Fixpoint parse_quantifiers (fuel : nat) (r : regex) (s : string) : regex * string :=
  match fuel, s with
  | S f, String c s' =>
      if Ascii.eqb c "*" then parse_quantifiers f (RStar r) s'
      else if Ascii.eqb c "+" then parse_quantifiers f (RSeq r (RStar r)) s'
      else if Ascii.eqb c "?" then parse_quantifiers f (RAlt r REmpty) s'
      else if Ascii.eqb c "{" then
        match parse_count None s' with
        | Some (n, rest) => parse_quantifiers f (RRepeat n r) rest
        | None => (r, s)
        end
      else (r, s)
  | _, _ => (r, s)
  end.

(** One atom that starts with the character [c]; [group] reads what
    stands between parentheses. *)
Definition parse_atom (group : string -> option (regex * string)) (c : ascii)
    (s' : string) : option (regex * string) :=
  if Ascii.eqb c "(" then
    '(r, rest) ← group s';
    match rest with
    | String e rest' => if Ascii.eqb e ")" then Some (r, rest') else None
    | EmptyString => None
    end
  else if Ascii.eqb c "[" then
    if starts_with "^" s' then
      '(items, rest) ← parse_set (String.substring 1 (String.length s') s');
      Some (RSet true items, rest)
    else '(items, rest) ← parse_set s'; Some (RSet false items, rest)
  else if Ascii.eqb c "\" then
    match s' with
    | String e rest =>
        Some (if Ascii.eqb e "s" then RSpace
              else if Ascii.eqb e "d" then RDigit
              else if Ascii.eqb e "w" then RWord
              else RChar e, rest)
    | EmptyString => None
    end
  else if Ascii.eqb c "." then Some (RAny, s')
  else Some (RChar c, s').

(** A sequence of quantified atoms behind [acc], up to a bar, a closing
    parenthesis or the end. *)
Fixpoint parse_atoms (group : string -> option (regex * string)) (n : nat)
    (acc : regex) (s : string) : option (regex * string) :=
  match n, s with
  | _, EmptyString => Some (acc, s)
  | O, _ => None
  | S n', String c s' =>
      if Ascii.eqb c "|" || Ascii.eqb c ")" then Some (acc, s)
      else
        '(atom, rest) ← parse_atom group c s';
        let '(atom, rest) := parse_quantifiers (String.length rest) atom rest in
        parse_atoms group n' (RSeq acc atom) rest
  end.

(** An alternation, up to a closing parenthesis or the end. *)
Fixpoint parse_regex (fuel : nat) (s : string) : option (regex * string) :=
  match fuel with
  | O => None
  | S f =>
      '(r1, rest) ← parse_atoms (parse_regex f) (String.length s) REmpty s;
      if starts_with "|" rest then
        '(r2, rest') ← parse_regex f (String.substring 1 (String.length rest) rest);
        Some (RAlt r1 r2, rest')
      else Some (r1, rest)
  end.

Definition compile (pattern : string) : option regex :=
  '(r, rest) ← parse_regex (S (String.length pattern)) pattern;
  match rest with EmptyString => Some r | _ => None end.

(** The scan of [re.sub]: at every position the match, if there is one,
    is replaced by [repl], and the scan goes on behind it. *)
Fixpoint sub_scan (fuel : nat) (r : regex) (repl : string) (s : string) : string :=
  match fuel with
  | O => s
  | S f =>
      let step := match s with
                  | EmptyString => EmptyString
                  | String c s' => String c (sub_scan f r repl s')
                  end in
      match re_match r s Some with
      | Some rest =>
          if (String.length rest <? String.length s)%nat
          then repl +:+ sub_scan f r repl rest
          else repl +:+ step
      | None => step
      end
  end.

Definition sample_sub (pattern repl s : string) : string :=
  match compile pattern with
  | Some r => sub_scan (S (String.length s)) r repl s
  | None => s
  end.

(** Stand-ins for the imported functions, enough to run the samples:
    whitespace is trimmed at both ends, a fingerprint is the string
    itself, no markup is parsed, and substitution is done by the engine
    above, the replacement being taken as it is. *)
Definition sample_lib : Lib :=
  {| trim := py_strip;
     uid := fun s => s;
     ns_x := "http://www.w3.org/1999/xhtml";
     xml_escape := escape_markup;
     tostring := serialize;
     etree_XML := fun _ => None;
     json_dumps := fun a =>
       "{" +:+ py_join ", " ((fun kv => dq +:+ kv.1 +:+ dq +:+ ": " +:+ dq +:+ kv.2 +:+ dq) <$> a)
       +:+ "}";
     re_sub := sample_sub;
     re_sub_fn := sample_sub |}.

(** A page: [<html><body><p>Hello</p></body></html>], and the page
    element of its paragraph. *)
Definition sample_paragraph : xml := Node (Some 2%nat) "p" [] (Some "Hello") [] None.
Definition sample_place : place :=
  Below (Some 0%nat) "html" [] None []
    (Here (Some 1%nat) "body" [] None [] [] None) [] None.
Definition sample_page : doc := [plug sample_place [sample_paragraph]].
Definition sample_unit : Element :=
  new_Element (PageElement (Some 2%nat)) (Some "page-1").

(** Paragraphs with inline nodes: [<p>a<img src="x.png"/>b<br/>c</p>],
    [<p>x<sup>1</sup>y</p>],
    [<p>a<code>b<br/>c</code>d<img src="x.png"/>e</p>] and
    [<p><code>if (x) {<br/>y;<br/>}</code></p>]. *)
Definition inline_paragraph : xml :=
  Node (Some 2%nat) "p" [] (Some "a")
    [Node (Some 3%nat) "img" [("src", "x.png")] None [] (Some "b");
     Node (Some 4%nat) "br" [] None [] (Some "c")] None.
Definition page_of (paragraph : xml) : doc := [plug sample_place [paragraph]].
Definition inline_unit : Element := set_placeholder default_placeholder sample_unit.

Definition single_handler (position : string) : ElementHandler :=
  new_ElementHandler ElementHandlerSingle default_placeholder (nl +:+ nl) position 0.

Definition gap_unit (g : Z) : Element := set_column_gap ("percentage", g) sample_unit.

Definition sample_untranslated : Paragraph :=
  {| original := "Hello" +:+ nl +:+ "world" +:+ nl; translation := None |}.
Definition sample_translated : Paragraph :=
  {| original := "Hello" +:+ nl +:+ "world" +:+ nl;
     translation := Some ("Bonjour le monde" +:+ nl) |}.



(** The text field of an [Original]. *)
Definition original_text (o : Original) : string :=
  match o with
  | Original7 _ _ _ content _ _ _ => content
  | Original5 _ _ _ txt _ => txt
  end.

(** The field [raw] of an [Original]. *)
Definition original_raw (o : Original) : string :=
  match o with
  | Original7 _ _ raw _ _ _ _ => raw
  | Original5 _ _ raw _ _ => raw
  end.

(** [element.get(name)] *)
Fixpoint attrib_get (name : string) (a : list (string * string)) : option string :=
  match a with
  | [] => None
  | (k, v) :: a' => if String.eqb k name then Some v else attrib_get name a'
  end.

(** The cells of the rows of a table, and their widths. *)
Definition table_cells (table : xml) : list xml :=
  x_children table ≫= x_children.
Definition cell_widths (table : xml) : list (option string) :=
  (fun td => attrib_get "width" (x_attrib td)) <$> table_cells table.

(** The share of a content column for a gap of [g] per cent: the wording
    of the specification. *)
Definition spec_column_share (g : Z) : Q := (inject_Z (100 - g) / 2)%Q.

(** The units below a node: a child with content is one, any other child
    stands for the units below it. *)
Fixpoint extractable `{Lib} (root : xml) : list xml :=
  let 'Node _ _ _ _ c _ := root in
  (fix below (cs : list xml) : list xml :=
     match cs with
     | [] => []
     | element :: cs' =>
         (if element_has_content element then [element] else extractable element)
         ++ below cs'
     end) c.

(** *** The placeholder codec, in the words of the specification *)















(** The expression that the decoding pattern of the default placeholder
    denotes for the digits of an index: one or more opening braces, each
    with white space behind it, the letters [id] and the underscore with
    white space behind them, every digit with white space behind it, and
    one or more closing braces, each with white space before it. *)
Definition one_or_more (r : regex) : regex := RSeq r (RStar r).
Definition close_group : regex := RSeq (RSeq REmpty (RStar RSpace)) (RChar "}").
Fixpoint digit_atoms (digits : string) : list regex :=
  match digits with
  | EmptyString => []
  | String d digits' => RChar d :: RStar RSpace :: digit_atoms digits'
  end.
Definition decode_atoms (digits : string) : list regex :=
  [RChar "i"; RChar "d"; RStar RSpace; RChar "_"; RStar RSpace]
  ++ digit_atoms digits ++ [one_or_more close_group].

(** The match of a sequence of expressions, one after the other. *)
Definition match_atoms (atoms : list regex) (k : string -> option string)
    (s : string) : option string :=
  foldr (fun a K s => re_match a s K) k atoms s.
















(** The units of [calls] that were given a translation. *)
Definition translated (calls : list Call) (eid : Z) : Prop :=
  exists call, call ∈ calls /\ c_eid call = eid /\ is_Some (c_translation call).

(** The maximal runs of equal characters of a string, from left to
    right, each with its length. *)
Fixpoint runs (s : string) : list (ascii * nat) :=
  match s with
  | EmptyString => []
  | String c s' =>
      match runs s' with
      | (d, n) :: r => if Ascii.eqb c d then (d, S n) :: r else (c, 1%nat) :: (d, n) :: r
      | [] => [(c, 1%nat)]
      end
  end.

(** A run of four or more copies of a word character is cut to four. *)
Definition cap (run : ascii * nat) : ascii * nat :=
  if is_word run.1 && (4 <=? run.2)%nat then (run.1, 4%nat) else run.

(** A run of four or more copies of any character is cut to four: the
    wording of the specification. *)
Definition cap_any (run : ascii * nat) : ascii * nat :=
  if (4 <=? run.2)%nat then (run.1, 4%nat) else run.

Fixpoint expand (rs : list (ascii * nat)) : string :=
  match rs with
  | [] => ""
  | (c, n) :: r => string_repeat c n +:+ expand r
  end.

(** The runs of a string are maximal: neighbours differ and none is empty. *)
Fixpoint maximal (rs : list (ascii * nat)) : Prop :=
  match rs with
  | [] => True
  | (c, n) :: r =>
      (1 <= n)%nat /\ starts_with c (expand r) = false /\ maximal r
  end.

(** ** Further parts of the module *)

(** [Element.get_translation], which the subtitle and the annotation
    elements override. *)
Definition get_translation (e : Element) : option string :=
  match element e with
  | SrtElement number time content => Some (py_join nl [number; time; content])
  | PgnElement original slot =>
      Some (match slot with
            | None => original
            | Some translation => "{" +:+ translation +:+ "}"
            end)
  | _ => None
  end.

(** The loop of [get_srt_elements] over the sections; [None] is the
    [IndexError] of [lines.pop(0)] on an empty list. *)
Fixpoint srt_sections (sections : list string) : option (list Element) :=
  match sections with
  | [] => Some []
  | section :: sections' =>
      lines ← py_split nl section;
      match lines with
      | number :: time :: lines =>
          let element := new_Element (SrtElement number time (py_join nl lines)) None in
          elements ← srt_sections sections';
          Some (element :: elements)
      | _ => None
      end
  end.

(** [get_srt_elements], on the content of the file. *)
Definition get_srt_elements (content : string) : option (list Element) :=
  sections ← py_split (nl +:+ nl) content;
  srt_sections sections.

(** A node of the table of contents: its title and its nodes. *)
#[warnings="-register-all"]
Inductive toc_node := TocNode (title : string) (nodes : list toc_node).

Definition toc_title (node : toc_node) : string := let 'TocNode t _ := node in t.
Definition toc_nodes (node : toc_node) : list toc_node := let 'TocNode _ ns := node in ns.

(** The body of the loop of [get_toc_elements] for one node, and the
    function: the list object [elements] as the call leaves it, which is
    also what it returns. *)
Fixpoint get_toc_elements_node (node : toc_node) (elements : list Element)
  : list Element :=
  let 'TocNode title nodes := node in
  let elements := elements ++ [new_Element (TocElement title) (Some "toc.ncx")] in
  if 0 <? Z.of_nat (length nodes)
  then foldl (fun elements node => get_toc_elements_node node elements) elements nodes
  else elements.

Definition get_toc_elements (nodes : list toc_node) (elements : list Element)
  : list Element :=
  foldl (fun elements node => get_toc_elements_node node elements) elements nodes.

(** The titles of a list of nodes, every node before its nodes. *)
Fixpoint toc_titles (node : toc_node) : list string :=
  let 'TocNode title nodes := node in title :: flat_map toc_titles nodes.

(** *** Noise nodes and characters *)

(** No node below the root has a noise tag. *)
Fixpoint noise_free (n : xml) : bool :=
  let 'Node _ _ _ _ c _ := n in
  forallb (fun ch => negb (tag_in noise_tags ch) && noise_free ch) c.

(** The tails of the children with a noise tag, one after the other. *)
Fixpoint noise_tails (cs : list xml) : string :=
  match cs with
  | [] => ""
  | ch :: cs' =>
      if tag_in noise_tags ch then or_empty (x_tail ch) +:+ noise_tails cs'
      else noise_tails cs'
  end.

Fixpoint string_forall (P : ascii -> Prop) (s : string) : Prop :=
  match s with
  | EmptyString => True
  | String c s' => P c /\ string_forall P s'
  end.

Section Properties.
Context `{Lib}.

#[local] Arguments String.append !s1 s2 : simpl nomatch.

Lemma append_assoc (a b c : string) : (a +:+ b) +:+ c = a +:+ (b +:+ c).
Proof. induction a as [|x a IH]; simpl; [done | by rewrite IH]. Qed.

Lemma append_nil_r (a : string) : a +:+ "" = a.
Proof. induction a as [|x a IH]; simpl; [done | by rewrite IH]. Qed.


Lemma split_from_length sep skip cur s : (1 <= length (split_from sep skip cur s))%nat.
Proof.
  revert skip cur. induction s as [|c s IH]; intros skip cur; simpl; [lia|].
  destruct skip as [|k]; [|apply IH].
  match goal with |- context [if ?b then _ else _] => destruct b end;
    simpl; [lia | apply IH].
Qed.

Lemma py_split_total sep s :
  sep <> "" -> exists l, py_split sep s = Some l /\ (1 <= length l)%nat.
Proof.
  intros Hsep. unfold py_split.
  destruct (String.eqb_spec sep "") as [->|_]; [done|].
  eexists. split; [reflexivity | apply split_from_length].
Qed.

Lemma normalize_separator_total h p :
  is_Some (py_format1 (h_placeholder h).2 "(0|[^0]\d*)") ->
  exists p', normalize_separator h p = Some p'
             /\ (translation p = None <-> translation p' = None).
Proof.
  intros [fmt Hfmt]. unfold normalize_separator.
  destruct (negb _).
  - rewrite Hfmt. simpl. eexists. split; [reflexivity|]. simpl.
    destruct (translation p); simpl; split; congruence.
  - eexists. split; [reflexivity | tauto].
Qed.

Lemma match_counts_length position originals translations :
  (1 <= length originals)%nat ->
  length (match_counts position originals translations) = length originals.
Proof.
  intros Hm. unfold match_counts, py_list_mul, py_insert0, py_append,
    py_slice_to, slice_bound.
  destruct (Z.ltb_spec 0 (Z.of_nat (length originals) - Z.of_nat (length translations)));
    [|destruct (Z.ltb_spec (Z.of_nat (length originals) - Z.of_nat (length translations)) 0)].
  - repeat case_match; simpl;
      rewrite ?length_app, ?length_fmap, ?length_replicate; simpl.
    all: lia.
  - rewrite length_fmap, length_app, length_take. simpl.
    destruct (Z.ltb_spec (Z.of_nat (length originals) - 1) 0); lia.
  - rewrite length_fmap. lia.
Qed.

Lemma match_counts_cases position originals translations :
  (1 <= length originals)%nat ->
  ((length translations < length originals)%nat ->
   in_tuple position ["left"; "right"] = true ->
   match_counts position originals translations
   = (Some <$> translations)
     ++ replicate (length originals - length translations) None) /\
  ((length translations < length originals)%nat ->
   in_tuple position ["left"; "right"] = false -> position = "above" ->
   match_counts position originals translations
   = Some (py_join (nl +:+ nl) translations)
     :: replicate (length originals - 1) None) /\
  ((length translations < length originals)%nat ->
   in_tuple position ["left"; "right"] = false -> position <> "above" ->
   match_counts position originals translations
   = replicate (length originals - 1) None
     ++ [Some (py_join (nl +:+ nl) translations)]) /\
  ((length originals < length translations)%nat ->
   match_counts position originals translations
   = (Some <$> take (length originals - 1) translations)
     ++ [Some (py_join (nl +:+ nl) (drop (length originals - 1) translations))]) /\
  (length originals = length translations ->
   match_counts position originals translations = Some <$> translations).
Proof.
  intros Hm. unfold match_counts.
  set (m := length originals) in *. set (n := length translations) in *.
  destruct (Z.ltb_spec 0 (Z.of_nat m - Z.of_nat n)) as [Hpos|Hpos];
    [|destruct (Z.ltb_spec (Z.of_nat m - Z.of_nat n) 0) as [Hneg|Hneg]].
  - repeat split; intros; try lia.
    + rewrite H1. unfold py_list_mul. do 2 f_equal. lia.
    + rewrite H1. subst position. simpl. unfold py_insert0, py_list_mul.
      do 2 f_equal. lia.
    + rewrite H1. unfold in_tuple; simpl.
      destruct (String.eqb_spec position "above") as [->|_]; [done|]. simpl.
      unfold py_append, py_list_mul. do 2 f_equal. lia.
  - repeat split; intros; try lia.
    unfold py_slice_to, py_slice_from, slice_bound. fold n.
    destruct (Z.ltb_spec (Z.of_nat m - 1) 0); [lia|].
    replace (Z.to_nat (Z.min (Z.max 0 (Z.of_nat m - 1)) (Z.of_nat n)))
      with (m - 1)%nat by lia.
    rewrite fmap_app. reflexivity.
  - repeat split; intros; lia.
Qed.

(** C10. A merged paragraph without translation: [align_paragraph]
    returns, and its result pairs every original segment, once and in
    order, with [None]. *)
Theorem align_paragraph_untranslated h p :
  h_separator h <> "" ->
  is_Some (py_format1 (h_placeholder h).2 "(0|[^0]\d*)") ->
  translation p = None ->
  exists p' originals,
    normalize_separator h p = Some p'
    /\ original_segments h p' = Some originals
    /\ align_paragraph h p = Some ((fun o => (o, None)) <$> originals, p').
Proof.
  intros Hsep Hfmt Hnone.
  destruct (normalize_separator_total h p Hfmt) as (p' & Hp' & Hiff).
  destruct (py_split_total (h_separator h) (py_strip (original p')) Hsep)
    as (originals & Hsplit & _).
  exists p', originals. split; [done|]. split; [done|].
  unfold align_paragraph. rewrite Hp'. simpl.
  unfold original_segments in *. rewrite Hsplit. simpl.
  rewrite (proj1 Hiff Hnone). f_equal. f_equal.
  unfold py_list_mul. rewrite Nat2Z.id.
  clear. induction originals as [|o l IH]; simpl; [done|]. by rewrite IH.
Qed.

(** C1. A merged paragraph with a translation, [m] original and [n]
    translated segments: [align_paragraph] returns [m] pairs whose first
    components are the original segments in order, and the second
    components follow the sign of [m - n] and the position. *)
Theorem align_paragraph_coverage h p text :
  h_separator h <> "" ->
  is_Some (py_format1 (h_placeholder h).2 "(0|[^0]\d*)") ->
  translation p = Some text ->
  exists p' text' originals translations pairs,
    normalize_separator h p = Some p'
    /\ translation p' = Some text'
    /\ original_segments h p' = Some originals
    /\ translation_segments h text' = Some translations
    /\ align_paragraph h p = Some (pairs, p')
    /\ length pairs = length originals
    /\ pairs.*1 = originals
    /\ ((length translations < length originals)%nat ->
        in_tuple (h_position h) ["left"; "right"] = true ->
        pairs.*2 = (Some <$> translations)
                   ++ replicate (length originals - length translations) None)
    /\ ((length translations < length originals)%nat ->
        in_tuple (h_position h) ["left"; "right"] = false ->
        h_position h = "above" ->
        pairs.*2 = Some (py_join (nl +:+ nl) translations)
                   :: replicate (length originals - 1) None)
    /\ ((length translations < length originals)%nat ->
        in_tuple (h_position h) ["left"; "right"] = false ->
        h_position h <> "above" ->
        pairs.*2 = replicate (length originals - 1) None
                   ++ [Some (py_join (nl +:+ nl) translations)])
    /\ ((length originals < length translations)%nat ->
        pairs.*2 = (Some <$> take (length originals - 1) translations)
                   ++ [Some (py_join (nl +:+ nl)
                               (drop (length originals - 1) translations))])
    /\ (length originals = length translations ->
        pairs.*2 = Some <$> translations).
Proof.
  intros Hsep Hfmt Htext.
  destruct (normalize_separator_total h p Hfmt) as (p' & Hp' & Hiff).
  destruct (translation p') as [text'|] eqn:Htext';
    [|rewrite (proj2 Hiff eq_refl) in Htext; discriminate].
  destruct (py_split_total (h_separator h) (py_strip (original p')) Hsep)
    as (originals & Hsplit & Hm).
  destruct (py_split_total (h_separator h)
              (py_strip (re_sub (h_separator h +:+ "+") (h_separator h) text')) Hsep)
    as (translations & Hsplit' & Hn).
  pose proof (match_counts_length (h_position h) originals translations Hm) as Hlen.
  destruct (match_counts_cases (h_position h) originals translations Hm)
    as (C1 & C2 & C3 & C4 & C5).
  exists p', text', originals, translations,
    (zip originals (match_counts (h_position h) originals translations)).
  assert (Hsnd : (zip originals (match_counts (h_position h) originals translations)).*2
                 = match_counts (h_position h) originals translations)
    by (apply snd_zip; lia).
  rewrite Hsnd.
  repeat split; try assumption.
  - unfold align_paragraph. rewrite Hp'. simpl.
    unfold original_segments. rewrite Hsplit. simpl. rewrite Htext'.
    unfold translation_segments. rewrite Hsplit'. reflexivity.
  - rewrite length_zip. lia.
  - apply fst_zip. lia.
Qed.


Lemma join_empty_cons x l : py_join "" (x :: l) = x +:+ py_join "" l.
Proof. destruct l; simpl; [by rewrite append_nil_r | done]. Qed.

Lemma join_empty_app l1 l2 : py_join "" (l1 ++ l2) = py_join "" l1 +:+ py_join "" l2.
Proof.
  induction l1 as [|x l1 IH]; [done|].
  rewrite <- app_comm_cons, !join_empty_cons, IH. by rewrite append_assoc.
Qed.

(** The text fields of the batches keep every unit and every separator:
    put end to end they are the contents, each followed by the separator. *)
Lemma merge_text_concatenation sep ml units :
  forall b,
    py_join "" (original_text
                  <$> merge_flush (foldl (fun b u => merge_unit sep ml b u.1 u.2) b units))
    = py_join "" (original_text <$> b_originals b) +:+ b_txt b
      +:+ py_join "" ((fun u => u.2 +:+ sep) <$> units).
Proof.
  induction units as [|[code content] units IH]; intros b.
  - simpl. unfold merge_flush. rewrite append_nil_r.
    destruct (String.eqb_spec (b_txt b) "") as [->|_]; simpl.
    + by rewrite append_nil_r.
    + rewrite fmap_app, join_empty_app. simpl. done.
  - cbn [foldl]. rewrite IH. rewrite fmap_cons, join_empty_cons. cbn [fst snd].
    unfold merge_unit.
    destruct (py_len (b_txt b +:+ (content +:+ sep)) <? ml); cbn [b_txt b_originals].
    + by rewrite !append_assoc.
    + destruct (String.eqb_spec (b_txt b) "") as [->|_]; cbn [negb].
      * cbn [b_txt b_originals]. done.
      * cbn [b_txt b_originals]. rewrite fmap_app, join_empty_app. simpl.
        by rewrite !append_assoc.
Qed.

(** C2, evaluated.  Three units with merge length 5: the second batch
    holds the raw markup of the last two units glued together, so no way
    of joining the batches gives back the units separated one by one. *)
Theorem merge_raw_concatenation_glued position d :
  exists h',
    prepare_original (merge_handler position 5) glued_elements d = Some (h', d)
    /\ original_raw <$> h_originals h' = ["aaaa"; "bc" +:+ nl]
    /\ py_join nl (original_raw <$> h_originals h') <> py_join nl ["aaaa"; "b"; "c"]
    /\ String.concat "" (original_raw <$> h_originals h')
       <> py_join nl ["aaaa"; "b"; "c"]
    /\ py_join nl (original_raw <$> h_originals h')
       <> String.concat "" ((fun raw => raw +:+ nl) <$> ["aaaa"; "b"; "c"])
    /\ String.concat "" (original_raw <$> h_originals h')
       <> String.concat "" ((fun raw => raw +:+ nl) <$> ["aaaa"; "b"; "c"]).
Proof.
  eexists. split; [reflexivity|]. repeat split; simpl; discriminate.
Qed.

Lemma prefix_repeat c n j rest :
  starts_with c rest = false ->
  String.prefix (string_repeat c n) (string_repeat c j +:+ rest) = (n <=? j)%nat.
Proof.
  intros Hrest. revert j. induction n as [|n IH]; intros j; simpl.
  - by destruct (string_repeat c j +:+ rest).
  - destruct j as [|j]; simpl.
    + destruct rest as [|d rest]; simpl; [done|]. simpl in Hrest.
      destruct (ascii_dec c d) as [->|]; [|done].
      by rewrite Ascii.eqb_refl in Hrest.
    + destruct (ascii_dec c c); [apply IH | done].
Qed.

Lemma condense_drop c k rest :
  starts_with c rest = false ->
  condense (Some (c, O)) (string_repeat c k +:+ rest) = condense None rest.
Proof.
  intros Hrest. induction k as [|k IH]; simpl.
  - destruct rest as [|d rest]; [done|]. simpl in *. by rewrite Hrest.
  - by rewrite Ascii.eqb_refl.
Qed.

Lemma condense_copy c j k rest :
  starts_with c rest = false -> (j <= k)%nat ->
  condense (Some (c, j)) (string_repeat c k +:+ rest)
  = string_repeat c j +:+ condense None rest.
Proof.
  intros Hrest. revert k. induction j as [|j IH]; intros k Hk.
  - by apply condense_drop.
  - destruct k as [|k]; [lia|]. simpl. f_equal. apply IH. lia.
Qed.

Lemma condense_start c s :
  condense None (String c s)
  = if is_word c && String.prefix (string_repeat c 3) s
    then String c (condense (Some (c, 3%nat)) s)
    else String c (condense None s).
Proof. reflexivity. Qed.

Lemma condense_run c k rest :
  starts_with c rest = false ->
  condense None (string_repeat c k +:+ rest)
  = string_repeat (cap (c, k)).1 (cap (c, k)).2 +:+ condense None rest.
Proof.
  intros Hrest. unfold cap. cbn [fst snd].
  destruct (is_word c && (4 <=? k)%nat) eqn:Hcap; cbn [fst snd].
  - apply andb_prop in Hcap as [Hw Hk]. apply Nat.leb_le in Hk.
    destruct k as [|k]; [lia|].
    change (string_repeat c (S k) +:+ rest) with (String c (string_repeat c k +:+ rest)).
    rewrite condense_start, Hw, (prefix_repeat c 3 k rest Hrest).
    destruct (Nat.leb_spec 3 k); [|lia]. cbn [andb].
    rewrite (condense_copy c 3 k rest) by done. reflexivity.
  - induction k as [|k IH]; [done|].
    change (string_repeat c (S k) +:+ rest) with (String c (string_repeat c k +:+ rest)).
    rewrite condense_start, (prefix_repeat c 3 k rest Hrest).
    assert (Hno : is_word c && (3 <=? k)%nat = false).
    { destruct (is_word c); [|done]. cbn [andb] in *.
      apply Nat.leb_gt. apply Nat.leb_gt in Hcap. lia. }
    rewrite Hno. cbn [string_repeat String.append]. f_equal. apply IH.
    destruct (is_word c); [|done]. cbn [andb] in *.
    apply Nat.leb_gt. apply Nat.leb_gt in Hcap. lia.
Qed.

Lemma starts_with_repeat c d n rest :
  (1 <= n)%nat -> starts_with c (string_repeat d n +:+ rest) = Ascii.eqb d c.
Proof. intros Hn. destruct n; [lia | done]. Qed.

Lemma runs_spec s : expand (runs s) = s /\ maximal (runs s).
Proof.
  induction s as [|c s [IHe IHm]]; simpl; [done|].
  destruct (runs s) as [|[d n] r] eqn:Hr; simpl in *.
  - subst s. done.
  - destruct (Ascii.eqb_spec c d) as [->|Hne]; simpl.
    + rewrite <- IHe. split; [done|]. destruct IHm as (Hn & Hs & Hm).
      repeat split; [lia | done | done].
    + rewrite <- IHe. split; [done|]. destruct IHm as (Hn & Hs & Hm).
      repeat split; try done.
      rewrite starts_with_repeat by done.
      destruct (Ascii.eqb_spec d c); [congruence | done].
Qed.

Lemma condense_expand rs :
  maximal rs -> condense None (expand rs) = expand (cap <$> rs).
Proof.
  induction rs as [|[c n] r IH]; simpl; [done|].
  intros (Hn & Hs & Hm). rewrite condense_run by done.
  rewrite IH by done. by destruct (cap (c, n)).
Qed.

(** The substitution of [_polish_translation], run by run. *)
Lemma condense_runs s : condense None s = expand (cap <$> runs s).
Proof.
  destruct (runs_spec s) as [He Hm].
  rewrite <- He at 1. by apply condense_expand.
Qed.

(** C9, as the code has it.  [_polish_translation] writes line breaks as
    [<br />] and then cuts every maximal run of four or more copies of one
    word character to four copies, leaving every other run as it is; so
    [helllllo] becomes [hellllo]. *)
Theorem polish_translation_runs :
  (forall translation,
      _polish_translation translation
      = expand (cap <$> runs (py_replace_char (ascii_of_nat 10) "<br />" translation)))
  /\ (forall c n, is_word c = true -> (4 <= n)%nat -> cap (c, n) = (c, 4%nat))
  /\ (forall c n, is_word c = false \/ (n < 4)%nat -> cap (c, n) = (c, n))
  /\ _polish_translation "helllllo" = "hellllo".
Proof.
  repeat apply conj.
  - intros translation. unfold _polish_translation. apply condense_runs.
  - intros c n Hw Hn. unfold cap. cbn [fst snd]. rewrite Hw.
    apply Nat.leb_le in Hn. by rewrite Hn.
  - intros c n [Hw|Hn]; unfold cap; cbn [fst snd].
    + by rewrite Hw.
    + apply Nat.leb_gt in Hn. rewrite Hn. by rewrite andb_false_r.
  - reflexivity.
Qed.

Lemma xml_induction (P : xml -> Prop) :
  (forall l tg a tx c tl, Forall P c -> P (Node l tg a tx c tl)) ->
  forall n, P n.
Proof.
  intros Hnode. fix IH 1. intros [l tg a tx c tl]. apply Hnode.
  induction c as [|ch c IHc]; constructor; [apply IH | exact IHc].
Qed.

Lemma extract_elements_accumulates ex page_id root :
  forall elements,
    (extract_elements ex page_id root elements).2
    = elements ++ (new_PageElement ex page_id <$> extractable root).
Proof.
  induction root as [l tg a tx c tl IH] using xml_induction.
  intros elements. simpl. revert elements.
  induction c as [|ch c IHc]; intros elements; simpl.
  - by rewrite app_nil_r.
  - inversion IH as [|? ? Hch Hc]; subst.
    destruct (element_has_content ch).
    + rewrite IHc by done. simpl. by rewrite <- app_assoc.
    + rewrite IHc by done. rewrite Hch. rewrite fmap_app. by rewrite app_assoc.
Qed.

(** C6. A child is a unit exactly when it has text of its own, or has
    children and a priority tag, or one of its children has a tail that is
    not blank; any other child is replaced by the units found below it;
    and a node below which there is no unit is returned as the only
    unit. *)
Theorem extract_elements_granularity ex page_id :
  (forall element,
      element_has_content element = true
      <-> not_blank (x_text element) = true
          \/ (x_children element <> []
              /\ in_tuple (get_name element) priority_elements = true)
          \/ (exists child, child ∈ x_children element
                            /\ not_blank (x_tail child) = true))
  /\ (forall l tg a tx element cs tl,
      extractable (Node l tg a tx (element :: cs) tl)
      = (if element_has_content element then [element] else extractable element)
        ++ extractable (Node l tg a tx cs tl))
  /\ (forall l tg a tx tl, extractable (Node l tg a tx [] tl) = [])
  /\ (forall root elements,
      (extract_elements ex page_id root elements).2
      = elements ++ (new_PageElement ex page_id <$> extractable root))
  /\ (forall root,
      (extract_elements ex page_id root []).1
      = match extractable root with
        | [] => [new_PageElement ex page_id root]
        | units => new_PageElement ex page_id <$> units
        end).
Proof.
  repeat apply conj.
  - intros element. unfold element_has_content.
    destruct (not_blank (x_text element)); [tauto|].
    destruct (x_children element) as [|ch c] eqn:Hc.
    + simpl. split; [done|]. intros [?|[[? _]|(child & Hin & _)]]; try done.
      by apply elem_of_nil in Hin.
    + rewrite bool_decide_eq_false_2 by done. cbn [negb andb].
      destruct (in_tuple (get_name element) priority_elements).
      * split; [|done]. intros _. right. left. done.
      * split.
        -- intros Hex. right. right.
           apply existsb_exists in Hex as (child & Hin & Hch).
           exists child. split; [by apply list_elem_of_In | done].
        -- intros [?|[[_ ?]|(child & Hin & Hch)]]; try done.
           apply existsb_exists. exists child.
           split; [by apply list_elem_of_In | done].
  - reflexivity.
  - reflexivity.
  - intros root elements. apply extract_elements_accumulates.
  - intros root.
    assert (Hret : (extract_elements ex page_id root []).1
                   = match (extract_elements ex page_id root []).2 with
                     | [] => [new_PageElement ex page_id root]
                     | elements => elements
                     end).
    { destruct root. simpl.
      match goal with |- match ?x with _ => _ end = _ => by destruct x end. }
    rewrite Hret, extract_elements_accumulates. rewrite app_nil_l.
    by destruct (extractable root).
Qed.

Lemma round_half_spec n :
  (Z.even n = true -> 2 * round_half n = n)
  /\ (Z.even n = false ->
      Z.even (round_half n) = true
      /\ (2 * round_half n = n + 1 \/ 2 * round_half n = n - 1)).
Proof.
  unfold round_half. rewrite Zeven_mod.
  pose proof (Z.div_mod n 2 ltac:(lia)) as Hdiv.
  pose proof (Z.mod_pos_bound n 2 ltac:(lia)) as Hmod.
  destruct (Z.eqb_spec (n mod 2) 0) as [Hz|Hnz].
  - split; [lia | discriminate].
  - split; [discriminate|]. intros _.
    destruct (Z.even (n / 2)) eqn:Hq; [split; [done | lia]|].
    split; [|lia].
    rewrite Z.even_add, Hq. reflexivity.
Qed.

(** C8, as the code has it.  The widths of the three cells: 45%, 10%, 45%
    without a gap setting; for a gap of [g] per cent, [g]% in the middle
    and on both sides half of [100 - g] rounded to an integer, a tie going
    to the even one; for any other unit 50% on both sides and, in the
    middle, no width but a text of that many non-breaking spaces.  A gap
    of 10 per cent gives 45%, 10%, 45%. *)
Theorem create_table_widths e position original translation :
  (column_gap e = None ->
   cell_widths (_create_table e position original translation)
   = [Some "45%"; Some "10%"; Some "45%"])
  /\ (forall g, column_gap e = Some ("percentage", g) ->
      cell_widths (_create_table e position original translation)
      = [Some (py_str_int (round_half (100 - g)) +:+ "%");
         Some (py_str_int g +:+ "%");
         Some (py_str_int (round_half (100 - g)) +:+ "%")])
  /\ (forall g, Z.even g = true -> 2 * round_half (100 - g) = 100 - g)
  /\ (forall g, Z.even g = false ->
      Z.even (round_half (100 - g)) = true
      /\ (2 * round_half (100 - g) = 100 - g + 1
          \/ 2 * round_half (100 - g) = 100 - g - 1))
  /\ (forall unit value, unit <> "percentage" ->
      column_gap e = Some (unit, value) ->
      cell_widths (_create_table e position original translation)
      = [Some "50%"; None; Some "50%"]
      /\ x_text <$> table_cells (_create_table e position original translation)
         = [None; Some (string_repeat nbsp (Z.to_nat value)); None])
  /\ (column_gap e = Some ("percentage", 10) ->
      cell_widths (_create_table e "left" original translation)
      = [Some "45%"; Some "10%"; Some "45%"]).
Proof.
  repeat apply conj.
  - intros Hgap. unfold _create_table. rewrite Hgap.
    destruct (String.eqb position "left"), (String.eqb position "right"),
      translation; reflexivity.
  - intros g Hgap. unfold _create_table. rewrite Hgap.
    destruct (String.eqb position "left"), (String.eqb position "right"),
      translation; reflexivity.
  - intros g Hg. apply round_half_spec.
    rewrite Z.even_sub. by rewrite Hg.
  - intros g Hg. apply round_half_spec.
    rewrite Z.even_sub. by rewrite Hg.
  - intros unit value Hunit Hgap. unfold _create_table. rewrite Hgap.
    destruct (String.eqb_spec unit "percentage"); [done|].
    destruct (String.eqb position "left"), (String.eqb position "right"),
      translation; split; reflexivity.
  - intros Hgap. unfold _create_table. rewrite Hgap.
    destruct translation; reflexivity.
Qed.

(** *** References into trees *)

Lemma has_label_iff l n : has_label l n = true <-> x_label n = Some l.
Proof.
  unfold has_label. destruct (x_label n) as [l'|]; [|done].
  destruct (Nat.eqb_spec l l'); split; congruence.
Qed.

Lemma absent_spec l n :
  mentions l n = false ->
  find_node l n = None
  /\ (forall f, update_node l f n = n)
  /\ (forall after new, insert_sibling after l new n = n)
  /\ detach l n = (n, None).
Proof.
  induction n as [lb tg a tx c tl IH] using xml_induction.
  intros Hm. simpl in Hm. apply orb_false_elim in Hm as [Hl Hc].
  assert (Hall : Forall (fun ch =>
            has_label l ch = false /\ find_node l ch = None
            /\ (forall f, update_node l f ch = ch)
            /\ (forall after new, insert_sibling after l new ch = ch)
            /\ detach l ch = (ch, None)) c).
  { clear Hl. induction IH as [|ch c Hch _ IHc]; [constructor|].
    simpl in Hc. apply orb_false_elim in Hc as [Hch' Hc'].
    constructor; [|by apply IHc].
    split; [|by apply Hch].
    destruct ch. simpl in Hch'. by apply orb_false_elim in Hch' as [? _]. }
  assert (Hroot : forall c', has_label l (Node lb tg a tx c' tl) = false)
    by (intros c'; exact Hl).
  clear IH Hc Hl. repeat split.
  - simpl. rewrite Hroot. induction Hall as [|ch c (_ & Hf & _) _ IHc]; [done|].
    simpl. by rewrite Hf.
  - intros f. simpl. rewrite Hroot. f_equal.
    induction Hall as [|ch c (_ & _ & Hu & _) _ IHc]; [done|].
    simpl. by rewrite Hu, IHc.
  - intros after new. simpl. f_equal.
    induction Hall as [|ch c (Hlb & _ & _ & Hi & _) _ IHc]; [done|].
    simpl. by rewrite Hlb, Hi, IHc.
  - simpl.
    assert (Hgo : remove_first (has_label l) (detach l) c = (c, None)).
    { induction Hall as [|ch c (Hlb & _ & _ & _ & Hd) _ IHc]; [done|].
      simpl. by rewrite Hlb, Hd, IHc. }
    by rewrite Hgo.
Qed.

Lemma absent_siblings l cs :
  existsb (mentions l) cs = false ->
  Forall (fun ch => has_label l ch = false /\ mentions l ch = false) cs.
Proof.
  induction cs as [|ch cs IH]; [constructor|]. simpl.
  intros Hm. apply orb_false_elim in Hm as [Hch Hcs].
  constructor; [|by apply IH]. split; [|done].
  destruct ch. simpl in Hch. by apply orb_false_elim in Hch as [? _].
Qed.

Lemma first_some_before l before cs :
  existsb (mentions l) before = false ->
  first_some (find_node l) (before ++ cs) = first_some (find_node l) cs.
Proof.
  intros Hb. apply absent_siblings in Hb.
  induction Hb as [|ch before [_ Hch] _ IH]; [done|].
  simpl. by rewrite (proj1 (absent_spec l ch Hch)).
Qed.

Lemma map_update_absent l f cs :
  existsb (mentions l) cs = false -> List.map (update_node l f) cs = cs.
Proof.
  intros Hb. apply absent_siblings in Hb.
  induction Hb as [|ch cs [_ Hch] _ IH]; [done|].
  simpl. rewrite IH. f_equal. by apply (absent_spec l ch Hch).
Qed.

Lemma insert_next_absent l after new cs :
  existsb (mentions l) cs = false ->
  insert_next (has_label l) (insert_sibling after l new) after new cs = cs.
Proof.
  intros Hb. apply absent_siblings in Hb.
  induction Hb as [|ch cs [Hlb Hch] _ IH]; [done|].
  simpl. rewrite Hlb, IH. f_equal. by apply (absent_spec l ch Hch).
Qed.

Lemma insert_next_before l after new before cs :
  existsb (mentions l) before = false ->
  insert_next (has_label l) (insert_sibling after l new) after new (before ++ cs)
  = before ++ insert_next (has_label l) (insert_sibling after l new) after new cs.
Proof.
  intros Hb. apply absent_siblings in Hb.
  induction Hb as [|ch before [Hlb Hch] _ IH]; [done|].
  simpl. rewrite Hlb, IH. f_equal. by apply (absent_spec l ch Hch).
Qed.

Lemma remove_first_before l before cs :
  existsb (mentions l) before = false ->
  remove_first (has_label l) (detach l) (before ++ cs)
  = (before ++ (remove_first (has_label l) (detach l) cs).1,
     (remove_first (has_label l) (detach l) cs).2).
Proof.
  intros Hb. apply absent_siblings in Hb.
  induction Hb as [|ch before [Hlb Hch] _ IH];
    [simpl; by destruct (remove_first (has_label l) (detach l) cs)|].
  simpl. rewrite Hlb, IH.
  by rewrite (proj2 (proj2 (proj2 (absent_spec l ch Hch)))).
Qed.

Lemma plug_root l c hole :
  place_mentions l c = false -> has_label l (plug c hole) = false.
Proof.
  intros Hc.
  assert (Hlb : forall lb : option nat,
             bool_decide (lb = Some l) = false ->
             match lb with Some l' => Nat.eqb l l' | None => false end = false).
  { intros [l'|] Hlb; [|done]. apply Nat.eqb_neq. intros ->.
    by rewrite bool_decide_eq_true_2 in Hlb. }
  destruct c; simpl in Hc; unfold has_label; simpl; apply Hlb;
    repeat (apply orb_false_elim in Hc as [Hc ?]); done.
Qed.

(** A reference that occurs nowhere around the hole leads to the node in
    the hole, and the operations on it change the hole only. *)
Lemma plug_spec l c e rest :
  place_mentions l c = false -> has_label l e = true ->
  find_node l (plug c (e :: rest)) = Some e
  /\ (forall f, existsb (mentions l) rest = false ->
                update_node l f (plug c (e :: rest)) = plug c (f e :: rest))
  /\ (forall new, insert_sibling true l new (plug c (e :: rest))
                  = plug c (e :: new :: rest))
  /\ (forall new, insert_sibling false l new (plug c (e :: rest))
                  = plug c (new :: e :: rest))
  /\ detach l (plug c (e :: rest)) = (plug c rest, Some e).
Proof.
  intros Hc He. induction c as [lb tg a tx before after tl
                               |lb tg a tx before inner IH after tl]; simpl in Hc.
  - apply orb_false_elim in Hc as [Hc Hafter].
    apply orb_false_elim in Hc as [Hlb Hbefore].
    assert (Hroot : forall c', has_label l (Node lb tg a tx c' tl) = false).
    { intros c'. unfold has_label. simpl. destruct lb as [l'|]; [|done].
      apply Nat.eqb_neq. intros ->. by rewrite bool_decide_eq_true_2 in Hlb. }
    repeat split.
    + simpl. rewrite Hroot, first_some_before by done. simpl.
      unfold find_node at 1. destruct e. by rewrite He.
    + intros f Hrest. simpl. rewrite Hroot. f_equal.
      rewrite map_app. simpl. rewrite map_app.
      rewrite !map_update_absent by done. f_equal. f_equal.
      destruct e. simpl. by rewrite He.
    + intros new. simpl. f_equal. rewrite insert_next_before by done.
      simpl. by rewrite He.
    + intros new. simpl. f_equal. rewrite insert_next_before by done.
      simpl. by rewrite He.
    + simpl. rewrite remove_first_before by done. simpl. by rewrite He.
  - apply orb_false_elim in Hc as [Hc Hafter].
    apply orb_false_elim in Hc as [Hc Hinner].
    apply orb_false_elim in Hc as [Hlb Hbefore].
    destruct (IH Hinner) as (IHf & IHu & IHa & IHb & IHd).
    assert (Hroot : forall c', has_label l (Node lb tg a tx c' tl) = false).
    { intros c'. unfold has_label. simpl. destruct lb as [l'|]; [|done].
      apply Nat.eqb_neq. intros ->. by rewrite bool_decide_eq_true_2 in Hlb. }
    assert (Hin : forall hole, has_label l (plug inner hole) = false)
      by (intros hole; by apply plug_root).
    repeat split.
    + simpl. rewrite Hroot, first_some_before by done. simpl. by rewrite IHf.
    + intros f Hrest. simpl. rewrite Hroot. f_equal.
      rewrite map_app. simpl.
      rewrite !map_update_absent by done. by rewrite IHu.
    + intros new. simpl. f_equal. rewrite insert_next_before by done.
      simpl. rewrite Hin, IHa. by rewrite insert_next_absent.
    + intros new. simpl. f_equal. rewrite insert_next_before by done.
      simpl. rewrite Hin, IHb. by rewrite insert_next_absent.
    + simpl. rewrite remove_first_before by done. simpl.
      by rewrite Hin, IHd.
Qed.

Lemma doc_spec l c e rest det :
  place_mentions l c = false -> existsb (mentions l) det = false ->
  has_label l e = true ->
  doc_find l (plug c (e :: rest) :: det) = Some e
  /\ (forall f, existsb (mentions l) rest = false ->
                doc_update l f (plug c (e :: rest) :: det)
                = plug c (f e :: rest) :: det)
  /\ (forall new, doc_insert_sibling true l new (plug c (e :: rest) :: det)
                  = plug c (e :: new :: rest) :: det)
  /\ (forall new, doc_insert_sibling false l new (plug c (e :: rest) :: det)
                  = plug c (new :: e :: rest) :: det)
  /\ doc_detach l (plug c (e :: rest) :: det) = Some (plug c rest :: det ++ [e]).
Proof.
  intros Hc Hdet He.
  destruct (plug_spec l c e rest Hc He) as (Hf & Hu & Ha & Hb & Hd).
  assert (Hmap : forall g : xml -> xml,
             (forall t, mentions l t = false -> g t = t) -> List.map g det = det).
  { intros g Hg. apply absent_siblings in Hdet.
    induction Hdet as [|t det [_ Ht] _ IH]; [done|]. simpl. by rewrite IH, Hg. }
  repeat split.
  - simpl. by rewrite Hf.
  - intros f Hrest. unfold doc_update. simpl. rewrite Hu by done. f_equal.
    apply Hmap. intros t Ht. by apply (absent_spec l t Ht).
  - intros new. unfold doc_insert_sibling. simpl. rewrite Ha. f_equal.
    apply Hmap. intros t Ht. by apply (absent_spec l t Ht).
  - intros new. unfold doc_insert_sibling. simpl. rewrite Hb. f_equal.
    apply Hmap. intros t Ht. by apply (absent_spec l t Ht).
  - simpl. by rewrite Hd.
Qed.

(** [add_translation(None, ...)] on a page element whose node sits in the
    hole of [c]. *)
Lemma page_add_translation_absent e l c n det position lang color tcolor :
  place_mentions l c = false -> existsb (mentions l) det = false ->
  has_label l n = true ->
  page_add_translation e (Some l) None position lang color tcolor
    (plug c [n] :: det)
  = let styled := match color with
                  | Some col => xml_set "style" ("color:" +:+ col) n
                  | None => n
                  end in
    if in_tuple position ["left"; "right"]
    then Some (e, plug c [_create_table e position (deepcopy styled) None]
                  :: det ++ [styled])
    else Some (e, plug c [styled] :: det).
Proof.
  intros Hc Hdet Hn. cbn zeta.
  set (styled := match color with
                 | Some col => xml_set "style" ("color:" +:+ col) n
                 | None => n
                 end).
  assert (Hs : has_label l styled = true) by (subst styled; destruct color, n; done).
  destruct (doc_spec l c n [] det Hc Hdet Hn) as (_ & Hu & _).
  destruct (doc_spec l c styled [] det Hc Hdet Hs) as (Hf & _ & Ha & _ & _).
  destruct (doc_spec l c styled [_create_table e position (deepcopy styled) None]
              det Hc Hdet Hs) as (_ & _ & _ & _ & Hd).
  assert (Hstyle :
    (match color with
     | Some c0 => modify (doc_update l (xml_set "style" ("color:" +:+ c0)))
     | None => mret ()
     end) (plug c [n] :: det) = Some ((), plug c [styled] :: det)).
  { subst styled. destruct color; [|done].
    unfold modify. by rewrite Hu. }
  unfold page_add_translation, mbind, M_bind, lift.
  rewrite Hstyle.
  destruct (in_tuple position ["left"; "right"]); [|done].
  unfold when, _element_copy, page_node, page_delete, remove_from_parent,
    mbind, M_bind, lift, read, modify, mret, M_ret.
  rewrite Hf, Ha, Hd. reflexivity.
Qed.

(** *** The calls of [add_translations] *)

Lemma bind_inv {A B} (m : M A) (k : A -> M B) d r :
  (x ← m; k x) d = Some r ->
  exists x d1, m d = Some (x, d1) /\ k x d1 = Some r.
Proof.
  unfold mbind, M_bind. destruct (m d) as [[x d1]|]; [|done]. eauto.
Qed.

Lemma dict_set_keys {A} k (v : A) d :
  k ∈ d.*1 -> (dict_set k v d).*1 = d.*1.
Proof.
  induction d as [|[k' v'] d IH]; simpl; intros Hk.
  - by apply elem_of_nil in Hk.
  - destruct (Z.eqb_spec k' k); [done|]. simpl. f_equal. apply IH.
    apply elem_of_cons in Hk as [->|]; done.
Qed.

Lemma dict_pop_keys {A} k (d : list (Z * A)) :
  NoDup d.*1 ->
  NoDup (dict_pop k d).*1
  /\ (forall x, x ∈ (dict_pop k d).*1 <-> x ∈ d.*1 /\ x <> k).
Proof.
  induction d as [|[k' v'] d IH]; simpl; intros Hnd.
  - split; [constructor|]. intros x. split; [by intros ?%elem_of_nil | by intros [?%elem_of_nil _]].
  - apply NoDup_cons in Hnd as [Hk' Hnd].
    destruct (Z.eqb_spec k' k) as [->|Hne].
    + split; [done|]. intros x. rewrite elem_of_cons. split.
      * intros Hx. split; [by right|]. by intros ->.
      * by intros [[->|Hx] Hxk].
    + destruct (IH Hnd) as [IHn IHx]. simpl. split.
      * apply NoDup_cons. split; [|done]. rewrite IHx. by intros [? _].
      * intros x. rewrite !elem_of_cons, IHx. split.
        -- intros [->|[Hx Hxk]]; [split; [by left | done] | split; [by right | done]].
        -- intros [[->|Hx] Hxk]; [by left | by right].
Qed.

Lemma translated_cons call calls k :
  translated (call :: calls) k
  <-> (c_eid call = k /\ is_Some (c_translation call)) \/ translated calls k.
Proof.
  unfold translated. split.
  - intros (c0 & Hin & Hk & Ht). apply elem_of_cons in Hin as [->|Hin]; [by left|].
    right. by exists c0.
  - intros [[Hk Ht]|(c0 & Hin & Hk & Ht)].
    + exists call. split; [by left | done].
    + exists c0. split; [by right | done].
Qed.

Lemma add_translations_loop_spec translations items :
  forall h d h' calls d',
    add_translations_loop h translations items d = Some ((h', calls), d') ->
    Forall2 (fun item call =>
               c_eid call = item.1
               /\ (ignored item.2 = true -> call = absent_call h item.1)
               /\ (c_translation call = None -> call = absent_call h item.1)
               /\ (forall t, c_translation call = Some t ->
                             ignored item.2 = false
                             /\ call = present_call h item.1 t
                             /\ exists content, dict_get translations content = Some t))
            items calls
    /\ (NoDup (h_elements h).*1 -> NoDup items.*1 ->
        items.*1 ⊆ (h_elements h).*1 ->
        NoDup (h_elements h').*1
        /\ forall k, k ∈ (h_elements h').*1
                     <-> k ∈ (h_elements h).*1 /\ ~ translated calls k).
Proof.
  induction items as [|[eid element] items IH]; intros h d h' calls d' Hrun.
  - injection Hrun as <- <- <-. split; [constructor|]. intros Hnd _ _.
    split; [done|]. intros k. split; [|tauto]. intros Hk. split; [done|].
    by intros (c0 & ?%elem_of_nil & _).
  - simpl in Hrun. destruct (ignored element) eqn:Hign.
    + apply bind_inv in Hrun as (element1 & d1 & Hcall & Hrun).
      apply bind_inv in Hrun as ([h2 calls2] & d2 & Hrest & Hrun).
      injection Hrun as <- <- <-.
      destruct (IH _ _ _ _ _ Hrest) as [IHcalls IHkeys]. split.
      * constructor; [|done]. simpl. split; [done|]. split; [done|].
        split; [done|]. intros t' Ht. discriminate.
      * intros Hnd Hnd' Hsub. simpl in Hnd', Hsub.
        apply NoDup_cons in Hnd' as [Heid Hnd'].
        assert (Hin : eid ∈ (h_elements h).*1) by (apply Hsub; by left).
        simpl in IHkeys. rewrite dict_set_keys in IHkeys by done.
        destruct IHkeys as [IHn IHk]; [done | done | |].
        { intros x Hx. apply Hsub. by right. }
        split; [done|]. intros k. rewrite IHk, translated_cons. simpl.
        split; [intros [? ?]; split; [done|] | intros [? Hnt]; split; [done|tauto]].
        intros [[_ [? ?]]|?]; done.
    + apply bind_inv in Hrun as ([original element0] & d0 & Hcontent & Hrun).
      destruct (dict_get translations original) as [t|] eqn:Hget.
      * apply bind_inv in Hrun as (element1 & d1 & Hcall & Hrun).
        apply bind_inv in Hrun as ([h2 calls2] & d2 & Hrest & Hrun).
        injection Hrun as <- <- <-.
        destruct (IH _ _ _ _ _ Hrest) as [IHcalls IHkeys]. split.
        -- constructor; [|done]. simpl. split; [done|].
           split; [intros; congruence|]. split; [discriminate|].
           intros t' [= <-]. split; [done|]. split; [done|]. by exists original.
        -- intros Hnd Hnd' Hsub. simpl in Hnd', Hsub.
           apply NoDup_cons in Hnd' as [Heid Hnd'].
           destruct (dict_pop_keys eid (h_elements h) Hnd) as [Hpn Hpk].
           simpl in IHkeys.
           destruct IHkeys as [IHn IHk]; [done | done | |].
           { intros x Hx. apply Hpk. split; [apply Hsub; by right|].
             by intros ->. }
           split; [done|]. intros k. rewrite IHk, Hpk, translated_cons. simpl.
           split.
           ++ intros [[? ?] ?]. split; [done|]. intros [[? _]|?]; [congruence|done].
           ++ intros [? Hnt]. split; [split; [done|]|tauto].
              intros ->. apply Hnt. left. split; [done|by eexists].
      * apply bind_inv in Hrun as (element1 & d1 & Hcall & Hrun).
        apply bind_inv in Hrun as ([h2 calls2] & d2 & Hrest & Hrun).
        injection Hrun as <- <- <-.
        destruct (IH _ _ _ _ _ Hrest) as [IHcalls IHkeys]. split.
        -- constructor; [|done]. simpl. split; [done|]. split; [done|].
           split; [done|]. intros t' Ht. discriminate.
        -- intros Hnd Hnd' Hsub. simpl in Hnd', Hsub.
           apply NoDup_cons in Hnd' as [Heid Hnd'].
           assert (Hin : eid ∈ (h_elements h).*1) by (apply Hsub; by left).
           simpl in IHkeys. rewrite dict_set_keys in IHkeys by done.
           destruct IHkeys as [IHn IHk]; [done | done | |].
           { intros x Hx. apply Hsub. by right. }
           split; [done|]. intros k. rewrite IHk, translated_cons. simpl.
           split; [intros [? ?]; split; [done|] | intros [? Hnt]; split; [done|tauto]].
           intros [[_ [? ?]]|?]; done.
Qed.





(** C5, as the code has it.  Every element pending in [elements] receives
    one call; when it is ignored, or when the dictionary has no
    translation for its content, the call is
    [add_translation(None, position, original_color=...)].  On a page
    element that call sets the colour of the original, if one is
    configured, and for the positions left and right it puts a table with
    a copy of the original in place of the original; for any other
    position nothing else changes. *)
Theorem untranslated_units_absent_call :
  (forall h translations items d h' calls d',
      add_translations_loop h translations items d = Some ((h', calls), d') ->
      Forall2 (fun item call =>
                 c_eid call = item.1
                 /\ (ignored item.2 = true -> call = absent_call h item.1)
                 /\ (c_translation call = None -> call = absent_call h item.1))
              items calls)
  /\ (forall h translations eid element items d,
      ignored element = true ->
      add_translations_loop h translations ((eid, element) :: items) d
      = (element' ← add_translation element None (h_position h) None
                      (h_original_color h) None;
         '(h', calls) ← add_translations_loop
                          (with_elements (dict_set eid element' (h_elements h)) h)
                          translations items;
         mret (h', absent_call h eid :: calls)) d)
  /\ (forall h translations eid element items d content element1 d1,
      ignored element = false ->
      get_content element d = Some ((content, element1), d1) ->
      dict_get translations content = None ->
      add_translations_loop h translations ((eid, element) :: items) d
      = (element' ← add_translation element1 None (h_position h) None
                      (h_original_color h) None;
         '(h', calls) ← add_translations_loop
                          (with_elements (dict_set eid element' (h_elements h)) h)
                          translations items;
         mret (h', absent_call h eid :: calls)) d1)
  /\ (forall e l c n det position lang color tcolor,
      place_mentions l c = false -> existsb (mentions l) det = false ->
      has_label l n = true ->
      let styled := match color with
                    | Some col => xml_set "style" ("color:" +:+ col) n
                    | None => n
                    end in
      let table := _create_table e position (deepcopy styled) None in
      (position = "left" \/ position = "right" ->
       add_translation (set_element (PageElement (Some l)) e) None position
         lang color tcolor (plug c [n] :: det)
       = Some (set_element (PageElement (Some l)) e,
               plug c [table] :: det ++ [styled])
         /\ x_children <$> table_cells table
            = (if String.eqb position "left"
               then [[]; []; [deepcopy styled]]
               else [[deepcopy styled]; []; []]))
      /\ (position <> "left" -> position <> "right" ->
          add_translation (set_element (PageElement (Some l)) e) None position
            lang color tcolor (plug c [n] :: det)
          = Some (set_element (PageElement (Some l)) e, plug c [styled] :: det))).
Proof.
  repeat apply conj.
  - intros h translations items d h' calls d' Hrun.
    destruct (add_translations_loop_spec _ _ _ _ _ _ _ Hrun) as [Hall _].
    eapply Forall2_impl; [exact Hall|]. simpl. tauto.
  - intros h translations eid element items d Hign. simpl. by rewrite Hign.
  - intros h translations eid element items d content element1 d1 Hign Hc Hget.
    simpl. rewrite Hign. unfold mbind at 1, M_bind at 1. rewrite Hc, Hget.
    reflexivity.
  - intros e l c n det position lang color tcolor Hc Hdet Hn. cbn zeta.
    pose proof (page_add_translation_absent (set_element (PageElement (Some l)) e)
                  l c n det position lang color tcolor Hc Hdet Hn) as Hcall.
    cbn zeta in Hcall. unfold add_translation. simpl.
    split.
    + intros [-> | ->]; rewrite Hcall; split; try reflexivity.
      * unfold _create_table. by destruct (column_gap e) as [[u v]|];
          [destruct (String.eqb u "percentage")|].
      * unfold _create_table. by destruct (column_gap e) as [[u v]|];
          [destruct (String.eqb u "percentage")|].
    + intros Hl Hr. rewrite Hcall.
      unfold in_tuple. simpl.
      destruct (String.eqb_spec position "left"); [done|].
      destruct (String.eqb_spec position "right"); [done|]. reflexivity.
Qed.

(** *** The placeholder codec *)




Lemma remove_noise_tag n : x_tag (remove_noise n) = x_tag n.
Proof.
  destruct n as [lb tg a tx c tl]. simpl.
  by destruct (remove_noise_children remove_noise tx c).
Qed.


(** *** The matcher on the decoding pattern *)



Lemma seq_eq r1 r2 s k :
  re_match (RSeq r1 r2) s k = re_match r1 s (fun s' => re_match r2 s' k).
Proof. reflexivity. Qed.





















Lemma decode_atoms_brace digits k s :
  match_atoms (decode_atoms digits) k (String "{" s) = None.
Proof. reflexivity. Qed.














(** *** The digits of an index *)












(** *** The scan of the substitution *)








(** *** Texts whose braces leave the placeholders alone *)







(** *** The reading of the decoding pattern *)


















(** *** The two loops on a tree *)






(** *** The loop of [add_translation] *)










End Properties.


(** ** The properties on the samples *)

Lemma align_paragraph_untranslated_witness :
  exists p' originals,
    @normalize_separator sample_lib (merge_handler "below" 50) sample_untranslated
    = Some p'
    /\ original_segments (merge_handler "below" 50) p' = Some originals
    /\ @align_paragraph sample_lib (merge_handler "below" 50) sample_untranslated
       = Some ((fun o => (o, None)) <$> originals, p').
Proof.
  apply (@align_paragraph_untranslated sample_lib
           (merge_handler "below" 50) sample_untranslated).
  - vm_compute. discriminate.
  - vm_compute. eexists. reflexivity.
  - reflexivity.
Defined.

Lemma align_paragraph_coverage_witness :
  exists p' text' originals translations pairs,
    @normalize_separator sample_lib (merge_handler "below" 50) sample_translated
    = Some p'
    /\ translation p' = Some text'
    /\ original_segments (merge_handler "below" 50) p' = Some originals
    /\ @translation_segments sample_lib (merge_handler "below" 50) text'
       = Some translations
    /\ @align_paragraph sample_lib (merge_handler "below" 50) sample_translated
       = Some (pairs, p')
    /\ length pairs = length originals
    /\ pairs.*1 = originals.
Proof.
  destruct (@align_paragraph_coverage sample_lib
              (merge_handler "below" 50) sample_translated
              ("Bonjour le monde" +:+ nl))
    as (p' & text' & originals & translations & pairs
        & H1 & H2 & H3 & H4 & H5 & H6 & H7 & _).
  - vm_compute. discriminate.
  - vm_compute. eexists. reflexivity.
  - reflexivity.
  - exists p', text', originals, translations, pairs. repeat split; assumption.
Defined.

(** C9 as stated fails: a run of five dots is a run of equal characters
    and stays as it is. *)
Lemma polish_keeps_run_of_dots :
  _polish_translation "wait....." = "wait....."
  /\ _polish_translation "wait....." <> expand (cap_any <$> runs "wait.....").
Proof. split; [reflexivity | vm_compute; discriminate]. Qed.

(** C8 as stated fails: for a gap of 5 per cent the content columns are
    48% wide, not half of 95. *)
Lemma create_table_odd_gap :
  cell_widths (_create_table (gap_unit 5) "left" sample_paragraph None)
  = [Some "48%"; Some "5%"; Some "48%"]
  /\ ~ (inject_Z 48 == spec_column_share 5)%Q.
Proof. split; [reflexivity | vm_compute; discriminate]. Qed.


(** C5 as stated fails: the single-unit handler does not register an
    ignored unit, which therefore receives no call, whatever the position. *)
Lemma ignored_unit_receives_no_call :
  exists h1 d1,
    @prepare_original sample_lib (single_handler "left")
      [set_ignored true sample_unit] sample_page = Some (h1, d1)
    /\ h_elements h1 = []
    /\ @add_translations sample_lib h1 [] d1 = Some ((h1, [], []), d1)
    /\ d1 = sample_page.
Proof. do 2 eexists. repeat split; vm_compute; reflexivity. Qed.


(** The content of [<p>a<img src="x.png"/>b<br/>c</p>], and the text that
    the loop of [add_translation] makes of it. *)
Example inline_round_trip :
  exists e',
    @get_content sample_lib inline_unit (page_of inline_paragraph)
    = Some (("a{{id_00000}}b{{id_00001}}c", e'), page_of inline_paragraph)
    /\ @decode_placeholders sample_lib (placeholder e') 0 (reserve_elements e')
         (escape_markup "a{{id_00000}}b{{id_00001}}c")
       = Some ("a<img src=" +:+ dq +:+ "x.png" +:+ dq +:+ "></img>b<br></br>c")
    /\ @decode_placeholders sample_lib (placeholder e') 0 (reserve_elements e')
         (escape_markup "{{ id_00001 }} a {{id_0 0000}}")
       = Some ("<br></br> a <img src=" +:+ dq +:+ "x.png" +:+ dq +:+ "></img>").
Proof. eexists. repeat split; vm_compute; reflexivity. Qed.




Lemma untranslated_units_absent_call_witness :
  @add_translation sample_lib (set_element (PageElement (Some 2%nat)) sample_unit)
    None "left" None (Some "gray") None (page_of sample_paragraph)
  = Some (set_element (PageElement (Some 2%nat)) sample_unit,
          plug sample_place
            [_create_table sample_unit "left"
               (deepcopy (xml_set "style" "color:gray" sample_paragraph)) None]
          :: [] ++ [xml_set "style" "color:gray" sample_paragraph]).
Proof.
  pose proof (proj2 (proj2 (proj2 (@untranslated_units_absent_call sample_lib)))
                sample_unit 2%nat sample_place sample_paragraph [] "left"
                None (Some "gray") None) as Hcall.
  cbv zeta in Hcall.
  destruct Hcall as [Hleft _]; [reflexivity | reflexivity | reflexivity |].
  destruct Hleft as [Hrun _]; [by left|]. exact Hrun.
Defined.

(** ** Further properties of the module *)

Section Further.
Context `{Lib}.

#[local] Arguments String.append !s1 s2 : simpl nomatch.

(** *** Splitting and joining *)

Lemma py_join_cons sep x l :
  l <> [] -> py_join sep (x :: l) = x +:+ sep +:+ py_join sep l.
Proof. by destruct l. Qed.

Lemma length_append (a b : string) :
  String.length (a +:+ b) = (String.length a + String.length b)%nat.
Proof. induction a as [|x a IH]; simpl; [done | by rewrite IH]. Qed.

Lemma prefix_append a b :
  String.prefix a b = true -> exists rest, b = a +:+ rest.
Proof.
  revert b. induction a as [|x a IH]; intros b Hp.
  - by exists b.
  - destruct b as [|y b]; [done|]. simpl in Hp.
    destruct (ascii_dec x y) as [->|]; [|done].
    destruct (IH b Hp) as [rest ->]. by exists rest.
Qed.

Lemma split_from_skip sep t rest cur :
  split_from sep (String.length t) cur (t +:+ rest) = split_from sep 0 cur rest.
Proof. induction t as [|x t IH]; simpl; [done | exact IH]. Qed.

Lemma split_from_nonempty sep skip cur s : split_from sep skip cur s <> [].
Proof.
  pose proof (split_from_length sep skip cur s) as Hlen.
  destruct (split_from sep skip cur s); [simpl in Hlen; lia | done].
Qed.

Lemma split_from_cons sep c s cur :
  split_from sep 0 cur (String c s)
  = if String.prefix sep (String c s)
    then cur :: split_from sep (String.length sep - 1) "" s
    else split_from sep 0 (cur +:+ String c "") s.
Proof. reflexivity. Qed.

(** Joining the pieces of a split gives the string back. *)
Lemma join_split_from sep :
  sep <> "" ->
  forall n s cur, (String.length s <= n)%nat ->
    py_join sep (split_from sep 0 cur s) = cur +:+ s.
Proof.
  intros Hsep. induction n as [|n IH]; intros s cur Hn.
  - destruct s; [|simpl in Hn; lia]. simpl. by rewrite append_nil_r.
  - destruct s as [|c s]; [simpl; by rewrite append_nil_r|].
    rewrite split_from_cons.
    destruct (String.prefix sep (String c s)) eqn:Hp.
    + destruct (prefix_append _ _ Hp) as [rest Hrest].
      destruct sep as [|a sep']; [done|]. simpl in Hrest.
      injection Hrest as -> ->.
      match goal with
      | |- context [(String.length (String ?x sep') - 1)%nat] =>
          replace (String.length (String x sep') - 1)%nat with (String.length sep')
            by (simpl; lia)
      end.
      rewrite split_from_skip.
      rewrite py_join_cons by apply split_from_nonempty.
      rewrite IH; [done|]. simpl in Hn. rewrite length_append in Hn. lia.
    + rewrite IH by (simpl in Hn; lia).
      by rewrite append_assoc.
Qed.

Lemma join_split sep s l : py_split sep s = Some l -> py_join sep l = s.
Proof.
  unfold py_split. destruct (String.eqb_spec sep "") as [|Hsep]; [done|].
  intros [= <-]. by rewrite (join_split_from sep Hsep (String.length s)).
Qed.

(** *** Subtitles *)

Lemma srt_sections_spec sections :
  (Forall (fun section => (2 <= length (split_from nl 0 "" section))%nat) sections
   <-> is_Some (srt_sections sections))
  /\ (forall elements,
        srt_sections sections = Some elements ->
        Forall2 (fun section e =>
                   get_translation e
                   = Some (if (length (split_from nl 0 "" section) =? 2)%nat
                           then section +:+ nl else section))
                sections elements).
Proof.
  induction sections as [|section sections [IHsome IHtr]].
  - split; [split; [by eexists | constructor]|]. intros elements [= <-]. constructor.
  - cbn [srt_sections]. unfold py_split. cbn [String.eqb nl].
    cbn [mbind option_bind].
    pose proof (join_split_from nl ltac:(done) (String.length section) section ""
                  ltac:(lia)) as Hjoin.
    destruct (split_from nl 0 "" section) as [|number [|time lines]] eqn:Hlines.
    + split; [split; [intros [Hsec _]%Forall_cons; rewrite Hlines in Hsec;
                        simpl in Hsec; lia
                     | by intros [? ?]]|done].
    + split; [split; [intros [Hsec _]%Forall_cons; rewrite Hlines in Hsec;
                        simpl in Hsec; lia
                     | by intros [? ?]]|done].
    + split.
      * rewrite Forall_cons. rewrite IHsome. split.
        -- intros [_ [els Hels]]. rewrite Hels. by eexists.
        -- intros [els Hels]. split; [rewrite Hlines; simpl; lia|].
           destruct (srt_sections sections); [by eexists | done].
      * intros elements Hrun.
        destruct (srt_sections sections) as [els|] eqn:Hels; [|done].
        injection Hrun as <-. constructor; [|by apply IHtr].
        cbn [get_translation element new_Element]. f_equal.
        rewrite Hlines. simpl in Hjoin. rewrite <- Hjoin.
        destruct lines as [|line lines]; simpl.
        -- rewrite append_assoc. reflexivity.
        -- reflexivity.
Qed.

(** X1. [get_srt_elements] raises exactly when a section of the file, the
    sections being separated by empty lines, has fewer than two lines.
    Otherwise the untranslated element of a section gives the section back
    as its translation, with one more line break when the section has two
    lines only; so a file whose sections all have a text is the elements'
    translations joined by empty lines. *)
Theorem get_srt_elements_round_trip content :
  (Forall (fun section => (2 <= length (split_from nl 0 "" section))%nat)
          (split_from (nl +:+ nl) 0 "" content)
   <-> is_Some (get_srt_elements content))
  /\ (forall elements,
        get_srt_elements content = Some elements ->
        Forall2 (fun section e =>
                   get_translation e
                   = Some (if (length (split_from nl 0 "" section) =? 2)%nat
                           then section +:+ nl else section))
                (split_from (nl +:+ nl) 0 "" content) elements)
  /\ (forall elements,
        get_srt_elements content = Some elements ->
        Forall (fun section => (3 <= length (split_from nl 0 "" section))%nat)
               (split_from (nl +:+ nl) 0 "" content) ->
        py_join (nl +:+ nl) ((fun e => default "" (get_translation e)) <$> elements)
        = content).
Proof.
  unfold get_srt_elements, py_split. cbn [String.eqb nl String.append].
  cbn [mbind option_bind].
  destruct (srt_sections_spec (split_from (nl +:+ nl) 0 "" content)) as [Hsome Htr].
  split; [exact Hsome|]. split; [exact Htr|].
  intros elements Hrun Hall. specialize (Htr elements Hrun).
  pose proof (join_split_from (nl +:+ nl) ltac:(done) (String.length content)
                content "" ltac:(lia)) as Hjoin.
  simpl in Hjoin. etransitivity; [|exact Hjoin]. f_equal.
  clear Hrun Hjoin Hsome.
  change (String (ascii_of_nat 10) nl) with (nl +:+ nl) in *.
  revert Htr Hall. generalize (split_from (nl +:+ nl) 0 "" content).
  intros sections Htr Hall.
  induction Htr as [|section e sections elements He _ IH]; [done|].
  apply Forall_cons in Hall as [Hsec Hall].
  rewrite fmap_cons, He, IH by done. f_equal. cbn [default].
  destruct (Nat.eqb_spec (length (split_from nl 0 "" section)) 2); [lia | done].
Qed.

(** *** Annotations and the table of contents *)

(** X2. On an annotation element a translation replaces the one applied
    before, whatever it was; [add_translation] always returns, changes no
    tree and leaves the comment itself what [get_raw] returns; and an
    element without translation gives the comment back as its
    translation. *)
Theorem pgn_translation_replaces e original slot :
  (forall t1 p1 l1 o1 c1 t2 p2 l2 o2 c2 d,
      (e1 ← add_translation (set_element (PgnElement original slot) e)
              (Some t1) p1 l1 o1 c1;
       add_translation e1 (Some t2) p2 l2 o2 c2) d
      = add_translation (set_element (PgnElement original None) e)
          (Some t2) p2 l2 o2 c2 d)
  /\ (forall t p l o c d,
        exists e1,
          add_translation (set_element (PgnElement original slot) e) t p l o c d
          = Some (e1, d)
          /\ get_raw e1 d = Some (original, d)
          /\ get_content e1 d = Some ((strip_braces original, e1), d))
  /\ get_translation (set_element (PgnElement original None) e) = Some original.
Proof.
  repeat apply conj.
  - intros. unfold add_translation, mbind, M_bind, mret, M_ret. simpl.
    unfold pgn_add_translation.
    destruct (String.eqb p1 "only"), (String.eqb p2 "only"); reflexivity.
  - intros t p l o c d. eexists. split; [reflexivity|].
    unfold pgn_add_translation.
    destruct t as [t|]; [destruct (String.eqb p "only")|]; done.
  - reflexivity.
Qed.

Lemma toc_node_induction (P : toc_node -> Prop) :
  (forall title nodes, Forall P nodes -> P (TocNode title nodes)) ->
  forall node, P node.
Proof.
  intros Hnode. fix IH 1. intros [title nodes]. apply Hnode.
  induction nodes as [|n nodes IHn]; constructor; [apply IH | exact IHn].
Qed.

Lemma get_toc_elements_node_spec node :
  forall elements,
    get_toc_elements_node node elements
    = elements ++ ((fun title => new_Element (TocElement title) (Some "toc.ncx"))
                     <$> toc_titles node).
Proof.
  induction node as [title nodes IH] using toc_node_induction.
  intros elements. cbn [get_toc_elements_node toc_titles].
  rewrite fmap_cons.
  assert (Hfold : forall elements,
    foldl (fun elements node => get_toc_elements_node node elements) elements nodes
    = elements ++ ((fun title => new_Element (TocElement title) (Some "toc.ncx"))
                     <$> flat_map toc_titles nodes)).
  { clear elements. induction IH as [|n nodes Hn _ IHn]; intros elements.
    - by rewrite app_nil_r.
    - cbn [foldl flat_map]. rewrite IHn, Hn, fmap_app. by rewrite app_assoc. }
  destruct (Z.ltb_spec 0 (Z.of_nat (length nodes))).
  - rewrite Hfold. by rewrite <- app_assoc.
  - destruct nodes; [|simpl in *; lia]. simpl. done.
Qed.

(** X3. [get_toc_elements] leaves in the list it is given, behind what the
    list held before, one element for every node of the table of contents,
    every node before its own nodes and the nodes in their order; the
    element holds the title and the page [toc.ncx] and is not ignored. *)
Theorem get_toc_elements_preorder nodes elements :
  get_toc_elements nodes elements
  = elements ++ ((fun title => new_Element (TocElement title) (Some "toc.ncx"))
                   <$> flat_map toc_titles nodes).
Proof.
  unfold get_toc_elements. revert elements.
  induction nodes as [|n nodes IH]; intros elements.
  - by rewrite app_nil_r.
  - cbn [foldl flat_map]. rewrite IH, get_toc_elements_node_spec, fmap_app.
    by rewrite app_assoc.
Qed.

(** *** The dictionary of translations *)

Lemma prepare_translation_single_snoc paragraphs paragraph :
  prepare_translation_single (paragraphs ++ [paragraph])
  = <[original paragraph := translation paragraph]>
      (prepare_translation_single paragraphs).
Proof. unfold prepare_translation_single. by rewrite foldl_app. Qed.

Lemma py_dict_snoc pairs kv : py_dict (pairs ++ [kv]) = <[kv.1 := kv.2]> (py_dict pairs).
Proof. unfold py_dict. by rewrite foldl_app. Qed.

(** X4. The lookup of a text in the dictionary that [prepare_translation]
    builds gives the translation of the last paragraph with that original
    text, and [None] when that translation is [None] or when no paragraph
    has the text; in the merging handler the same holds for the pairs of
    the aligned segments. *)
Theorem prepare_translation_lookup key :
  (forall paragraphs,
      dict_get (prepare_translation_single paragraphs) key
      = mjoin (translation
                 <$> last (filter (fun p => original p = key) paragraphs)))
  /\ (forall pairs : list (string * option string),
        dict_get (py_dict pairs) key
        = mjoin (snd <$> last (filter (fun kv => kv.1 = key) pairs))).
Proof.
  split.
  - intros paragraphs. induction paragraphs as [|p paragraphs IH] using rev_ind.
    + reflexivity.
    + rewrite prepare_translation_single_snoc, filter_app. unfold dict_get in *.
      rewrite filter_cons, filter_nil.
      destruct (decide (original p = key)) as [<-|Hne].
      * rewrite lookup_insert_eq, last_snoc. reflexivity.
      * rewrite lookup_insert_ne by done. by rewrite app_nil_r.
  - intros pairs. induction pairs as [|kv pairs IH] using rev_ind.
    + reflexivity.
    + rewrite py_dict_snoc, filter_app. unfold dict_get in *.
      rewrite filter_cons, filter_nil.
      destruct (decide (kv.1 = key)) as [<-|Hne].
      * rewrite lookup_insert_eq, last_snoc. reflexivity.
      * rewrite lookup_insert_ne by done. by rewrite app_nil_r.
Qed.

(** *** The attributes of the translation *)

Lemma attrib_get_set name value a key :
  attrib_get key (attrib_set name value a)
  = if String.eqb key name then Some value else attrib_get key a.
Proof.
  induction a as [|[k v] a IH]; cbn [attrib_set attrib_get].
  - rewrite String.eqb_sym. by destruct (String.eqb key name).
  - destruct (String.eqb_spec k name) as [->|Hk]; cbn [attrib_get].
    + destruct (String.eqb_spec name key) as [->|Hn].
      * by rewrite String.eqb_refl.
      * rewrite (proj2 (String.eqb_neq key name)) by congruence. done.
    + rewrite IH. destruct (String.eqb_spec k key) as [->|Hkk].
      * by rewrite (proj2 (String.eqb_neq key name)) by congruence.
      * done.
Qed.

Lemma attrib_get_app key a b :
  attrib_get key (a ++ b)
  = match attrib_get key a with Some v => Some v | None => attrib_get key b end.
Proof.
  induction a as [|[k v] a IH]; cbn [app attrib_get]; [done|].
  by destruct (String.eqb k key).
Qed.

Lemma copy_attributes_shape position items :
  forall new_element,
    x_tag (copy_attributes position items new_element) = x_tag new_element
    /\ x_text (copy_attributes position items new_element) = x_text new_element
    /\ x_children (copy_attributes position items new_element) = x_children new_element
    /\ x_tail (copy_attributes position items new_element) = x_tail new_element.
Proof.
  induction items as [|[name value] items IH]; intros new_element; [done|].
  cbn [copy_attributes].
  destruct (String.eqb name "id" && negb (String.eqb position "only")); [apply IH|].
  destruct (IH (xml_set name (if String.eqb name "dir" then "auto" else value) new_element))
    as (-> & -> & -> & ->).
  by destruct new_element.
Qed.

(** X5. The loop of [add_translation] over the attributes of the original
    leaves everything but the attributes of the new element as it is.  The
    [id] of the original is not copied unless the position is [only]; any
    other attribute of the original is set on the new element, [dir]
    always with the value [auto]; and an attribute that the original does
    not have keeps the value it has on the new element. *)
Theorem copy_attributes_spec position items new_element :
  x_tag (copy_attributes position items new_element) = x_tag new_element
  /\ x_text (copy_attributes position items new_element) = x_text new_element
  /\ x_children (copy_attributes position items new_element) = x_children new_element
  /\ x_tail (copy_attributes position items new_element) = x_tail new_element
  /\ forall key,
       attrib_get key (x_attrib (copy_attributes position items new_element))
       = if String.eqb key "id" && negb (String.eqb position "only")
         then attrib_get key (x_attrib new_element)
         else match attrib_get key (rev items) with
              | Some value => Some (if String.eqb key "dir" then "auto" else value)
              | None => attrib_get key (x_attrib new_element)
              end.
Proof.
  destruct (copy_attributes_shape position items new_element) as (Ht & Hx & Hc & Hl).
  do 4 (split; [done|]). clear Ht Hx Hc Hl. revert new_element.
  induction items as [|[name value] items IH]; intros new_element key.
  - cbn [copy_attributes rev attrib_get]. by destruct (_ && _).
  - cbn [copy_attributes rev]. rewrite attrib_get_app. cbn [attrib_get].
    destruct (String.eqb name "id" && negb (String.eqb position "only")) eqn:Hskip.
    + rewrite IH. destruct (String.eqb key "id" && negb (String.eqb position "only")) eqn:Hkey;
        [done|].
      destruct (attrib_get key (rev items)); [done|].
      apply andb_prop in Hskip as [Hname Hpos]. rewrite Hpos, andb_true_r in Hkey.
      apply String.eqb_eq in Hname as ->. rewrite String.eqb_sym. by rewrite Hkey.
    + rewrite IH.
      replace (x_attrib (xml_set name (if String.eqb name "dir" then "auto" else value)
                           new_element))
        with (attrib_set name (if String.eqb name "dir" then "auto" else value)
                (x_attrib new_element)) by by destruct new_element.
      rewrite attrib_get_set.
      destruct (String.eqb key "id" && negb (String.eqb position "only")) eqn:Hkey.
      * apply andb_prop in Hkey as [Hk Hpos]. rewrite Hpos, andb_true_r in Hskip.
        apply String.eqb_eq in Hk as ->. rewrite String.eqb_sym. by rewrite Hskip.
      * destruct (attrib_get key (rev items)); [done|].
        rewrite (String.eqb_sym name key).
        destruct (String.eqb_spec key name) as [->|Hne]; done.
Qed.

(** *** The noise nodes *)

Lemma noise_tails_none cs :
  existsb (tag_in noise_tags) cs = false -> noise_tails cs = "".
Proof.
  induction cs as [|c cs IH]; [done|]. cbn [existsb noise_tails].
  intros [-> Hany]%orb_false_elim. by apply IH.
Qed.

Lemma remove_noise_children_spec inside tx cs :
  remove_noise_children inside tx cs
  = (if existsb (tag_in noise_tags) cs
     then Some (or_empty tx +:+ noise_tails cs) else tx,
     inside <$> filter (fun ch => tag_in noise_tags ch = false) cs).
Proof.
  revert tx. induction cs as [|ch cs IH]; intros tx; [done|].
  cbn [remove_noise_children existsb noise_tails]. rewrite filter_cons.
  destruct (tag_in noise_tags ch) eqn:Hn.
  - rewrite IH. cbn [orb]. rewrite decide_False by done.
    destruct (existsb (tag_in noise_tags) cs) eqn:Hany.
    + cbn [or_empty default from_option id]. by rewrite append_assoc.
    + by rewrite noise_tails_none, append_nil_r.
  - rewrite IH. cbn [orb]. rewrite decide_True by done. by rewrite fmap_cons.
Qed.

(** X6. The first loop of [get_content] leaves no node with a noise tag
    below the root and changes nothing in a tree that has none.  In every
    node the children with a noise tag are dropped with all they hold, the
    others stay in their order, and the tails of the dropped children are
    put, one after the other, behind the text of the node: in front of the
    children that stay. *)
Theorem remove_noise_spec :
  (forall n, noise_free (remove_noise n) = true)
  /\ (forall n, noise_free n = true -> remove_noise n = n)
  /\ (forall lb tg a tx c tl,
        remove_noise (Node lb tg a tx c tl)
        = Node lb tg a
            (if existsb (tag_in noise_tags) c
             then Some (or_empty tx +:+ noise_tails c) else tx)
            (remove_noise <$> filter (fun ch => tag_in noise_tags ch = false) c) tl).
Proof.
  assert (Hform : forall lb tg a tx c tl,
    remove_noise (Node lb tg a tx c tl)
    = Node lb tg a
        (if existsb (tag_in noise_tags) c
         then Some (or_empty tx +:+ noise_tails c) else tx)
        (remove_noise <$> filter (fun ch => tag_in noise_tags ch = false) c) tl).
  { intros. cbn [remove_noise]. by rewrite remove_noise_children_spec. }
  split; [|split; [|exact Hform]].
  - induction n as [lb tg a tx c tl IH] using xml_induction.
    rewrite Hform. cbn [noise_free]. clear Hform.
    induction IH as [|ch c Hch _ IHc]; [done|].
    rewrite filter_cons. destruct (decide (tag_in noise_tags ch = false)) as [Hn|Hn];
      [|exact IHc].
    rewrite fmap_cons. cbn [forallb]. rewrite IHc, Hch, andb_true_r.
    unfold tag_in in *. by rewrite remove_noise_tag, Hn.
  - induction n as [lb tg a tx c tl IH] using xml_induction.
    cbn [noise_free]. intros Hfree. rewrite Hform. clear Hform.
    assert (Hc : existsb (tag_in noise_tags) c = false
                 /\ remove_noise <$> filter (fun ch => tag_in noise_tags ch = false) c = c).
    { induction IH as [|ch c Hch _ IHc]; [done|].
      cbn [forallb] in Hfree. apply andb_prop in Hfree as [Hhead Hfree].
      apply andb_prop in Hhead as [Hn Hf]. apply negb_true_iff in Hn.
      destruct (IHc Hfree) as [Hany Hmap].
      cbn [existsb]. rewrite Hn, Hany. split; [done|].
      rewrite filter_cons, decide_True by done.
      rewrite fmap_cons, Hmap, Hch by done. done. }
    destruct Hc as [-> ->]. done.
Qed.

(** *** Polishing twice *)

Lemma cap_cap r : cap (cap r) = cap r.
Proof.
  destruct r as [c n]. unfold cap at 2. cbn [fst snd].
  destruct (is_word c && (4 <=? n)%nat) eqn:Hcap; unfold cap; cbn [fst snd];
    rewrite ?Hcap; [|done].
  by destruct (is_word c && (4 <=? 4)%nat).
Qed.

Lemma starts_with_cap c rs :
  maximal rs ->
  starts_with c (expand (cap <$> rs)) = starts_with c (expand rs).
Proof.
  destruct rs as [|[d n] rs]; [done|]. intros (Hn & _ & _).
  destruct n as [|n]; [lia|].
  rewrite fmap_cons. unfold cap at 1. cbn [fst snd].
  destruct (is_word d && (4 <=? S n)%nat); reflexivity.
Qed.

Lemma maximal_cap rs : maximal rs -> maximal (cap <$> rs).
Proof.
  induction rs as [|[c n] rs IH]; [done|]. intros (Hn & Hs & Hm).
  rewrite fmap_cons.
  assert (Hs' : starts_with c (expand (cap <$> rs)) = false)
    by by rewrite starts_with_cap.
  unfold cap at 1. cbn [fst snd].
  destruct (is_word c && (4 <=? n)%nat); cbn [maximal];
    (split; [lia|split; [done|by apply IH]]).
Qed.

Lemma condense_idempotent s : condense None (condense None s) = condense None s.
Proof.
  rewrite (condense_runs s). destruct (runs_spec s) as [_ Hm].
  rewrite condense_expand by by apply maximal_cap.
  rewrite <- list_fmap_compose. f_equal. apply list_fmap_ext.
  intros _ r _. apply cap_cap.
Qed.

Lemma replace_absent c new s :
  string_forall (fun d => d <> c) s -> py_replace_char c new s = s.
Proof.
  induction s as [|d s IH]; [done|]. intros [Hd Hs]. cbn [py_replace_char].
  rewrite (proj2 (Ascii.eqb_neq d c)) by done. by rewrite IH.
Qed.

Lemma string_forall_app P a b :
  string_forall P a -> string_forall P b -> string_forall P (a +:+ b).
Proof. induction a as [|c a IH]; [done|]. intros [Hc Ha] Hb. split; [done|by apply IH]. Qed.

Lemma string_forall_repeat (P : ascii -> Prop) c n :
  P c -> string_forall P (string_repeat c n).
Proof. intros Hc. induction n; [done|]. by split. Qed.

Lemma runs_forall P s :
  string_forall P s -> Forall (fun r => P r.1) (runs s).
Proof.
  induction s as [|c s IH]; [constructor|]. intros [Hc Hs]. cbn [runs].
  specialize (IH Hs). destruct (runs s) as [|[d n] r]; [by repeat constructor|].
  destruct (Ascii.eqb c d).
  - apply Forall_cons in IH as [Hd Hr]. by constructor.
  - by constructor.
Qed.

Lemma expand_forall P rs :
  Forall (fun r => P r.1) rs -> string_forall P (expand rs).
Proof.
  induction 1 as [|[c n] rs Hc _ IH]; [done|]. cbn [expand].
  apply string_forall_app; [by apply string_forall_repeat|done].
Qed.

Lemma condense_forall P s :
  string_forall P s -> string_forall P (condense None s).
Proof.
  intros Hs. rewrite condense_runs. apply expand_forall.
  apply Forall_fmap. eapply Forall_impl; [by apply runs_forall|].
  intros [c n] Hc. unfold compose, cap. cbn [fst snd] in *.
  by destruct (is_word c && (4 <=? n)%nat).
Qed.

Lemma replace_newline_free s :
  string_forall (fun d => d <> ascii_of_nat 10)
    (py_replace_char (ascii_of_nat 10) "<br />" s).
Proof.
  induction s as [|c s IH]; [done|]. cbn [py_replace_char].
  destruct (Ascii.eqb_spec c (ascii_of_nat 10)) as [->|Hc].
  - apply string_forall_app; [|done]. repeat split; discriminate.
  - by split.
Qed.

(** X7. Polishing a polished translation changes nothing: no line break
    is left to be written as markup, and no run of word characters is
    longer than four. *)
Theorem polish_translation_idempotent translation :
  _polish_translation (_polish_translation translation)
  = _polish_translation translation.
Proof.
  unfold _polish_translation.
  rewrite (replace_absent _ _ (condense None _))
    by apply condense_forall, replace_newline_free.
  apply condense_idempotent.
Qed.

End Further.
